(** * mini-api-gateway: the request pipeline of [server.js]

    A shallow embedding of the gateway's middleware chain
    (authenticateApiKey, rateLimiter, cacheMiddleware, the route handlers
    and the proxy hooks) with the two module-level [Map]s threaded as
    explicit state, and the properties of the specification stated over it.

    Conventions.
    - JavaScript numbers that hold millisecond timestamps and counters are
      integers far below 2^53, so they are modelled by [Z].
    - [Date.now()], [process.uptime()], [process.memoryUsage()] and the
      answer of the upstream service are inputs of a request: they are
      collected in the record [env].
    - [rateLimitStore] is a [gmap]; [cacheStore] is a list of bindings in
      insertion order, because the eviction of [cacheMiddleware] depends on
      the iteration order of the JavaScript [Map].
    - [serve] is the chain of [server.js] for one request: the JSON body
      parser, whose rejection of a body is an input of the request, and
      then the middleware stack applied from [app.use(authenticateApiKey)]
      on, which is [handle]. The logger and the timing middleware answer
      nothing and touch neither store.
    - [req.path] is computed by Express from the URL; [pathname] follows it
      for request targets in origin form without white space ([plainUrl]).
    - The proxy library is not part of the repository. Its one property the
      model relies on is that it relays an upstream response by piping the
      stream into [res]; only [onError] answers through [res.json]. The
      headers that [onProxyReq] adds to the upstream request are given by
      [forwardHeaders].
    - The error-handling middleware ([errorHandler]) is reached through
      [next(err)]: from the body parser in [serve], and from the proxy when
      [router] finds no target.
    - Of the mock backends of [test-backends.js] the users service (GET by
      id, POST) and the auth service (login, verify) are modelled, each as a
      function of what the handler reads; [parseInt] of the path parameter
      is an input ([None] for [NaN]). *)

From stdpp Require Import base tactics option list gmap strings.
From Stdlib Require Import ZArith Ascii String Lia.

Local Open Scope string_scope.
Local Open Scope list_scope.
Local Open Scope Z_scope.

(** ** JavaScript strings *)

Module JsString.

(** [s.startsWith(p)] *)
Fixpoint startsWith (s p : string) {struct p} : bool :=
  match p with
  | EmptyString => true
  | String c p' =>
      match s with
      | EmptyString => false
      | String d s' => if Ascii.eqb c d then startsWith s' p' else false
      end
  end.

(** [s.substring(n)] *)
Fixpoint dropStr (n : nat) (s : string) : string :=
  match n with
  | O => s
  | S n' => match s with
            | EmptyString => EmptyString
            | String _ s' => dropStr n' s'
            end
  end.

(** [s.replace(pat, repl)] for a string pattern: only the first
    occurrence is replaced. The replacement strings used by the gateway
    contain no [$], so no replacement pattern is interpreted. *)
Fixpoint replace (s pat repl : string) : string :=
  if startsWith s pat then repl +:+ dropStr (String.length pat) s
  else match s with
       | EmptyString => EmptyString
       | String c s' => String c (replace s' pat repl)
       end.

(** [s.includes(c)] for a one-character needle *)
Fixpoint includes (s : string) (c : ascii) : bool :=
  match s with
  | EmptyString => false
  | String d s' => if Ascii.eqb c d then true else includes s' c
  end.

(** [s.split(c)] for a one-character separator; never the empty list *)
Fixpoint split (s : string) (c : ascii) : list string :=
  match s with
  | EmptyString => [EmptyString]
  | String d s' =>
      if Ascii.eqb c d then EmptyString :: split s' c
      else match split s' c with
           | [] => [String d EmptyString]
           | w :: ws => String d w :: ws
           end
  end.

(** [a || b] on strings: the empty string is falsy *)
Definition or_else (a b : string) : string :=
  match a with EmptyString => b | _ => a end.

(** Template-literal rendering of a possibly [undefined] string *)
Definition render (o : option string) : string :=
  match o with Some s => s | None => "undefined" end.

(** ASCII lower-casing, for the case-insensitive matching of Express *)
Definition lower_ascii (c : ascii) : ascii :=
  let n := nat_of_ascii c in
  if (Nat.leb 65 n && Nat.leb n 90)%bool then ascii_of_nat (n + 32) else c.

Fixpoint lower (s : string) : string :=
  match s with
  | EmptyString => EmptyString
  | String c s' => String (lower_ascii c) (lower s')
  end.

End JsString.

Import JsString.

(** ** The route table: [proxyOptions.router] and [proxyOptions.onProxyReq] *)

(** [Object.entries(config)]: the prefixes with their targets, in the order
    of declaration in [config.json]. *)
Abbreviation Config := (list (string * string)).

(** The part of [s] before its first [?]; all of [s] when it has none. *)
Definition beforeQuestionMark (s : string) : string :=
  match split s "?" with
  | p :: _ => p
  | [] => s
  end.

(** The part of [s] before its first [?] or [#]. *)
Fixpoint beforeDelimiter (s : string) : string :=
  match s with
  | EmptyString => EmptyString
  | String c s' =>
      if (Ascii.eqb c "?" || Ascii.eqb c "#")%bool then EmptyString
      else String c (beforeDelimiter s')
  end.

(** Backslashes turned into slashes, as Node's [url.parse] does before the
    first [?] or [#]. *)
Fixpoint backslashesToSlashes (s : string) : string :=
  match s with
  | EmptyString => EmptyString
  | String c s' =>
      String (if Ascii.eqb c "092" then "/"%char else c) (backslashesToSlashes s')
  end.

(** The characters that [url.parse] percent-encodes: tab, LF, CR, space,
    the two quotes, [<], [>], the backslash, [^], the backquote, [{], [|]
    and [}]. *)
Definition autoEscaped (c : ascii) : bool :=
  existsb (Nat.eqb (nat_of_ascii c))
    [9; 10; 13; 32; 34; 39; 60; 62; 92; 94; 96; 123; 124; 125]%nat.

Definition hexDigit (n : nat) : ascii :=
  ascii_of_nat (if Nat.ltb n 10 then 48 + n else 55 + n).

Definition percentEncode (c : ascii) : string :=
  let n := nat_of_ascii c in
  String "%" (String (hexDigit (n / 16)) (String (hexDigit (n mod 16)) EmptyString)).

Fixpoint autoEscape (s : string) : string :=
  match s with
  | EmptyString => EmptyString
  | String c s' =>
      (if autoEscaped c then percentEncode c else String c EmptyString)
      +:+ autoEscape s'
  end.

(** The characters that [url.parse] trims and that, like [#], make the URL
    parser of Express leave its fast path: tab, LF, FF, CR, space and the
    no-break space. *)
Definition isWhitespace (c : ascii) : bool :=
  existsb (Nat.eqb (nat_of_ascii c)) [9; 10; 12; 13; 32; 160]%nat.

Fixpoint hasWhitespace (s : string) : bool :=
  match s with
  | EmptyString => false
  | String c s' => (isWhitespace c || hasWhitespace s')%bool
  end.

(** The request targets the model of [req.path] is exact for: a path in
    origin form, that is one that starts with a single slash, without
    white space. (A request line cannot hold a space, CR or LF.) *)
Definition plainUrl (url : string) : bool :=
  match url with
  | String c rest =>
      (Ascii.eqb c "/" && negb (startsWith rest "/") &&
       negb (startsWith (backslashesToSlashes rest) "/") &&
       negb (hasWhitespace url))%bool
  | EmptyString => false
  end.

(** [req.path]: the path name of [req.url] as Express parses it. (Inside the
    proxy hooks [req.url] is the original URL again.) For a URL without [#]
    it is the part before the first [?]. A URL with [#] goes through Node's
    [url.parse]: the path name ends at the first [?] or [#], its backslashes
    are slashes and the characters of [autoEscaped] are percent-encoded. *)
Definition pathname (url : string) : string :=
  if includes url "#"
  then autoEscape (backslashesToSlashes (beforeDelimiter url))
  else beforeQuestionMark url.

(** The loop of [router]: the target of the first entry whose prefix the
    path starts with, [null] when there is none. *)
Fixpoint router (config : Config) (path : string) : option string :=
  match config with
  | [] => None
  | (route, target) :: rest =>
      if startsWith path route then Some target else router rest path
  end.

(** The loop of [onProxyReq] that computes [newPath]. *)
Fixpoint newPath (config : Config) (path : string) : string :=
  match config with
  | [] => path
  | (route, _) :: rest =>
      if startsWith path route then or_else (replace path route "") "/"
      else newPath rest path
  end.

(** [req.url.includes('?') ? '?' + req.url.split('?')[1] : ''] *)
Definition querySuffix (url : string) : string :=
  if includes url "?"
  then "?" +:+ render (split url "?" !! 1%nat)
  else "".

(** [proxyReq.path] as [onProxyReq] assigns it. *)
Definition onProxyReq (config : Config) (url : string) : string :=
  newPath config (pathname url) +:+ querySuffix url.

(** Route resolution: the target chosen by [router] together with the
    path that [onProxyReq] sends upstream. *)
Definition resolve (config : Config) (url : string) : option (string * string) :=
  match router config (pathname url) with
  | Some target => Some (target, onProxyReq config url)
  | None => None
  end.

(** The query string of a URL: everything after the first [?]. *)
Fixpoint queryOf (url : string) : option string :=
  match url with
  | EmptyString => None
  | String c u => if Ascii.eqb "?" c then Some u else queryOf u
  end.

(** ** Response bodies *)

#[local] Set Warnings "-register-all".

(** The JSON values the gateway builds. [JDate t] stands for
    [new Date(t).toISOString()]; [JOpaque] carries the values the Node
    runtime reports ([process.uptime()], [process.memoryUsage()]). *)
Inductive json : Type :=
| JBool (b : bool)
| JNum (n : Z)
| JStr (s : string)
| JDate (t : Z)
| JOpaque (tag : string)
| JArr (items : list json)
| JObj (fields : list (string * json)).

(** Every argument of [res.json] in [server.js] is an object literal: an
    ordered list of properties. *)
Abbreviation obj := (list (string * json)).

(** Assignment of a property, as an object literal or a spread does it: an
    existing property keeps its place and takes the new value, a new one is
    added last. *)
Fixpoint setProp (k : string) (v : json) (o : obj) : obj :=
  match o with
  | [] => [(k, v)]
  | (k', v') :: o' =>
      if bool_decide (k' = k) then (k, v) :: o' else (k', v') :: setProp k v o'
  end.

Fixpoint getProp (k : string) (o : obj) : option json :=
  match o with
  | [] => None
  | (k', v) :: o' => if bool_decide (k' = k) then Some v else getProp k o'
  end.

(** What reaches the client: either an object sent with [res.json], or the
    upstream body that the proxy library pipes into the response. *)
Inductive payload : Type :=
| JsonBody (o : obj)
| Streamed (raw : string).

Record response : Type := mkResponse {
  status : Z;
  headers : list (string * json);
  body : payload
}.

(** ** Requests, environment and state *)

Record request : Type := mkRequest {
  method : string;
  originalUrl : string;          (* path and query *)
  apiKey : option string;        (* req.headers['x-api-key'] *)
  ip : string                    (* req.ip || req.connection.remoteAddress *)
}.

(** What the upstream service does when the proxy calls it. *)
Inductive upstream_reply : Type :=
| Relayed (code : Z) (raw : string)   (* a response, relayed as a stream *)
| Unavailable.                        (* an I/O failure: [onError] runs *)

Record env : Type := mkEnv {
  now_start : Z;        (* Date.now() of the timing middleware *)
  now_rate : Z;         (* Date.now() in rateLimiter *)
  now_lookup : Z;       (* Date.now() in the hit test of cacheMiddleware *)
  now_handler : Z;      (* new Date() in the handler that answers *)
  now_store : Z;        (* Date.now() in the wrapper around res.json *)
  now_relay : Z;        (* Date.now() in onProxyRes *)
  uptime : json;        (* process.uptime() *)
  memory : json;        (* process.memoryUsage() *)
  reply : upstream_reply
}.

Record ClientWindow : Type := mkWindow {
  count : Z;
  windowStart : Z
}.

Record CacheEntry : Type := mkEntry {
  data : obj;
  timestamp : Z
}.

Abbreviation RateLimitStore := (gmap string ClientWindow).
Abbreviation CacheStore := (list (string * CacheEntry)).

Record state : Type := mkState {
  rateLimitStore : RateLimitStore;
  cacheStore : CacheStore
}.

Definition initial : state := mkState ∅ [].

(** The static configuration of the process: [config.json] and the
    [API_KEY] environment variable. *)
Record gateway : Type := mkGateway {
  config : Config;
  API_KEY : option string
}.

(** ** authenticateApiKey *)

(** [process.env.API_KEY || 'gateway-secret-key'] *)
Definition validApiKey (g : gateway) : string :=
  match API_KEY g with
  | Some k => or_else k "gateway-secret-key"
  | None => "gateway-secret-key"
  end.

Inductive auth_result : Type :=
| AuthMissing          (* 401, 'Missing API key. ...' *)
| AuthInvalid          (* 401, 'Invalid API key.' *)
| AuthOk.              (* next() *)

#[global] Instance auth_result_eq_dec : EqDecision auth_result.
Proof. solve_decision. Defined.

Definition authenticateApiKey (g : gateway) (r : request) : auth_result :=
  match apiKey r with
  | None => AuthMissing
  | Some EmptyString => AuthMissing
  | Some k => if bool_decide (k ≠ validApiKey g) then AuthInvalid else AuthOk
  end.

Definition authResponse (a : auth_result) : option response :=
  match a with
  | AuthMissing =>
      Some (mkResponse 401 []
        (JsonBody [("error", JStr "Missing API key. Please provide x-api-key header.")]))
  | AuthInvalid =>
      Some (mkResponse 401 [] (JsonBody [("error", JStr "Invalid API key.")]))
  | AuthOk => None
  end.

(** ** rateLimiter *)

Definition windowMs : Z := 60 * 1000.
Definition maxRequests : Z := 10.

(** [Math.ceil(a / b)] for an integer [a] and a positive integer [b]. *)
Definition ceilDiv (a b : Z) : Z := - ((- a) / b).

(** The sweep at the head of [rateLimiter]: every entry whose window has
    expired is deleted. *)
Definition sweep (now : Z) (m : RateLimitStore) : RateLimitStore :=
  filter (λ kv, ¬ (now - windowStart kv.2 > windowMs)) m.

Inductive rate_result : Type :=
| Denied (retryAfter : Z)
| Allowed (limit remaining resetAt : Z).

Definition rateLimiter (clientIp : string) (now : Z) (m : RateLimitStore)
  : RateLimitStore * rate_result :=
  let m1 := sweep now m in
  let ipData :=
    match m1 !! clientIp with
    | Some d => if bool_decide (now - windowStart d > windowMs)
                then mkWindow 0 now else d
    | None => mkWindow 0 now
    end in
  let ipData := mkWindow (count ipData + 1) (windowStart ipData) in
  let m2 := <[clientIp := ipData]> m1 in
  if bool_decide (count ipData > maxRequests)
  then (m2, Denied (ceilDiv (windowMs - (now - windowStart ipData)) 1000))
  else (m2, Allowed maxRequests (Z.max 0 (maxRequests - count ipData))
                    (windowStart ipData + windowMs)).

Definition rateLimitHeaders (limit remaining resetAt : Z) : list (string * json) :=
  [("X-RateLimit-Limit", JNum limit);
   ("X-RateLimit-Remaining", JNum remaining);
   ("X-RateLimit-Reset", JDate resetAt)].

Definition rateLimitedResponse (retryAfter : Z) : response :=
  mkResponse 429 []
    (JsonBody [("error", JStr "Rate limit exceeded. Maximum 10 requests per minute.");
               ("retryAfter", JNum retryAfter)]).

(** ** cacheMiddleware *)

(** [`${req.method}:${req.originalUrl}:${req.headers['x-api-key']}`] *)
Definition cacheKey (r : request) : string :=
  method r +:+ ":" +:+ originalUrl r +:+ ":" +:+ render (apiKey r).

(** [cacheStore.get(key)] *)
Fixpoint cacheGet (key : string) (c : CacheStore) : option CacheEntry :=
  match c with
  | [] => None
  | (k, v) :: c' => if bool_decide (k = key) then Some v else cacheGet key c'
  end.

(** [cacheStore.set(key, v)]: a key already present keeps its position in
    the iteration order, a new key goes last. *)
Fixpoint cacheSet (key : string) (v : CacheEntry) (c : CacheStore) : CacheStore :=
  match c with
  | [] => [(key, v)]
  | (k, w) :: c' =>
      if bool_decide (k = key) then (k, v) :: c' else (k, w) :: cacheSet key v c'
  end.

(** [cacheStore.delete(key)] *)
Definition cacheDelete (key : string) (c : CacheStore) : CacheStore :=
  filter (λ kv, kv.1 ≠ key) c.

Definition cacheMax : nat := 100.
Definition evictBatch : nat := 10.
Definition cacheTtl : Z := 30000.

(** [Array.from(cacheStore.keys()).slice(0, 10).forEach(key =>
    cacheStore.delete(key))] *)
Definition evict (c : CacheStore) : CacheStore :=
  foldl (λ acc key, cacheDelete key acc) c (take evictBatch (c.*1)).

(** The body of the function that replaces [res.json] on a miss, up to the
    call of the original [res.json]. *)
Definition storeOnJson (key : string) (statusCode : Z) (d : obj) (now : Z)
    (c : CacheStore) : CacheStore :=
  if bool_decide (statusCode = 200) then
    let c1 := cacheSet key (mkEntry d now) c in
    if bool_decide (cacheMax < List.length c1)%nat then evict c1 else c1
  else c.

(** [cached && (Date.now() - cached.timestamp) < 30000] *)
Definition cacheLookup (key : string) (now : Z) (c : CacheStore) : option CacheEntry :=
  match cacheGet key c with
  | Some e => if bool_decide (now - timestamp e < cacheTtl) then Some e else None
  | None => None
  end.

(** [{...cached.data, _cached: true, _cachedAt: new Date(cached.timestamp).toISOString()}] *)
Definition cachedBody (e : CacheEntry) : obj :=
  setProp "_cachedAt" (JDate (timestamp e)) (setProp "_cached" (JBool true) (data e)).

(** ** Route handlers *)

(** What the handler that answers hands to the response: a status code, the
    headers it adds, the body, and the upstream call it made, if any, as the
    pair of the target and of [proxyReq.path]. *)
Record handled : Type := mkHandled {
  h_status : Z;
  h_headers : list (string * json);
  h_body : payload;
  h_upstream : option (string * string)
}.

(** Express matches route paths without regard to case and tolerates one
    trailing slash; a mount path matches a path it is a prefix of at a
    segment boundary, a trailing slash of the mount path being optional,
    and the mount path ["/"] matches every path. Both are given here for
    literal paths ([literalRoute]: no character that Express reads as part
    of a pattern). [app.get] also serves HEAD. *)
Definition handlesGet (m : string) : bool :=
  bool_decide (m = "GET") || bool_decide (m = "HEAD").

Definition routeMatch (pat path : string) : bool :=
  bool_decide (lower path = lower pat) || bool_decide (lower path = lower pat +:+ "/").

(** [pat] without one trailing slash. *)
Fixpoint dropTrailingSlash (pat : string) : string :=
  match pat with
  | EmptyString => EmptyString
  | String c EmptyString => if Ascii.eqb c "/" then EmptyString else pat
  | String c rest => String c (dropTrailingSlash rest)
  end.

Definition mountMatch (pat path : string) : bool :=
  if bool_decide (pat = "/") then true
  else
    let prefix := lower (dropTrailingSlash pat) in
    startsWith (lower path) prefix &&
    (let rest := dropStr (String.length prefix) (lower path) in
     bool_decide (rest = "") || startsWith rest "/").

(** The characters of a literal route: ASCII letters and digits, and
    [/ - _ . ~ %]. *)
Definition literalChar (c : ascii) : bool :=
  let n := nat_of_ascii c in
  ((Nat.leb 48 n && Nat.leb n 57) || (Nat.leb 65 n && Nat.leb n 90) ||
   (Nat.leb 97 n && Nat.leb n 122) ||
   existsb (Nat.eqb n) [47; 45; 95; 46; 126; 37]%nat)%bool.

Fixpoint allLiteral (s : string) : bool :=
  match s with
  | EmptyString => true
  | String c s' => (literalChar c && allLiteral s')%bool
  end.

(** A configured prefix that Express reads as a literal path: it starts
    with a slash and holds literal characters only. *)
Definition literalRoute (route : string) : bool :=
  (startsWith route "/" && allLiteral route)%bool.

Definition literalRoutes (config : Config) : bool :=
  forallb (λ kv, literalRoute kv.1) config.

(** [app.get('/health', ...)] *)
Definition healthBody (g : gateway) (e : env) : obj :=
  [("status", JStr "healthy");
   ("timestamp", JDate (now_handler e));
   ("uptime", uptime e);
   ("routes", JArr (map (λ kv, JStr kv.1) (config g)))].

(** [app.get('/gateway/stats', ...)] *)
Definition statsBody (g : gateway) (st : state) (e : env) : obj :=
  [("activeConnections", JNum (Z.of_nat (size (rateLimitStore st))));
   ("cacheSize", JNum (Z.of_nat (List.length (cacheStore st))));
   ("configuration", JObj (map (λ kv, (kv.1, JStr kv.2)) (config g)));
   ("memory", memory e)].

(** The body of the 502 answer of [onError]. *)
Definition badGatewayBody (service : string) (e : env) : obj :=
  [("error", JStr "Bad Gateway");
   ("message", JStr "The upstream service is unavailable");
   ("service", JStr service);
   ("timestamp", JDate (now_handler e))].

(** The body of the answer of the error-handling middleware for the
    [TypeError] that [onError] raises when it is called without a request;
    the text of the message is the JavaScript engine's. *)
Definition thrownErrorBody (r : request) (e : env) : obj :=
  [("error", JOpaque "TypeError.message");
   ("timestamp", JDate (now_handler e));
   ("path", JStr (originalUrl r));
   ("method", JStr (method r))].

(** The body of the 404 handler, [app.use('*', ...)]. *)
Definition notFoundBody (g : gateway) (r : request) (e : env) : obj :=
  [("error", JStr "Route not found");
   ("message", JStr ("No proxy configuration found for " +:+ originalUrl r));
   ("availableRoutes", JArr (map (λ kv, JStr kv.1) (config g)));
   ("timestamp", JDate (now_handler e))].

(** The proxy middleware with the hooks of [proxyOptions]. The proxy
    library writes the upstream response into [res] itself, as a stream:
    that path does not go through [res.json]. When the upstream call fails,
    [onError] answers 502 with [res.json]. When [router] finds no prefix
    (a path that Express matched to a mount without regard to case) there
    is no target to call: the library reports the error without a request,
    [onError] fails on reading [req.originalUrl], and the error-handling
    middleware answers 500. *)
Definition proxy (g : gateway) (r : request) (e : env) : handled :=
  let url := originalUrl r in
  match router (config g) (pathname url) with
  | Some target =>
      let call := Some (target, onProxyReq (config g) url) in
      match reply e with
      | Relayed code raw =>
          mkHandled code
            [("x-gateway", JStr "mini-api-gateway");
             ("x-response-time", JNum (now_relay e - now_start e))]
            (Streamed raw) call
      | Unavailable =>
          mkHandled 502 [] (JsonBody (badGatewayBody target e)) call
      end
  | None => mkHandled 500 [] (JsonBody (thrownErrorBody r e)) None
  end.

(** The routes in the order of their registration: [/health],
    [/gateway/stats], one mount of the proxy per configured prefix, and the
    404 handler. *)
Definition dispatch (g : gateway) (st : state) (r : request) (e : env) : handled :=
  let path := pathname (originalUrl r) in
  if handlesGet (method r) && routeMatch "/health" path then
    mkHandled 200 [] (JsonBody (healthBody g e)) None
  else if handlesGet (method r) && routeMatch "/gateway/stats" path then
    mkHandled 200 [] (JsonBody (statsBody g st e)) None
  else if existsb (λ kv, mountMatch kv.1 path) (config g) then
    proxy g r e
  else
    mkHandled 404 [] (JsonBody (notFoundBody g r e)) None.

(** ** The pipeline *)

Record outcome : Type := mkOutcome {
  resp : response;
  upstream : option (string * string)
}.

Definition respond (hs : list (string * json)) (h : handled) : outcome :=
  mkOutcome (mkResponse (h_status h) (hs ++ h_headers h) (h_body h)) (h_upstream h).

(** [cacheMiddleware] followed by the handlers it passes control to. [hs]
    are the headers already set on [res]. *)
Definition cacheMiddleware (g : gateway) (st : state) (hs : list (string * json))
    (r : request) (e : env) : state * outcome :=
  if bool_decide (method r ≠ "GET") then
    (st, respond hs (dispatch g st r e))
  else
    let key := cacheKey r in
    match cacheLookup key (now_lookup e) (cacheStore st) with
    | Some cached =>
        (st, mkOutcome (mkResponse 200 hs (JsonBody (cachedBody cached))) None)
    | None =>
        let h := dispatch g st r e in
        let c :=
          match h_body h with
          | JsonBody d => storeOnJson key (h_status h) d (now_store e) (cacheStore st)
          | Streamed _ => cacheStore st
          end in
        (mkState (rateLimitStore st) c, respond hs h)
    end.

(** The middleware stack of [server.js] from [app.use(authenticateApiKey)]
    on, for a request that the JSON body parser has let through ([serve]
    is the whole chain): one request against the current state. *)
Definition handle (g : gateway) (st : state) (r : request) (e : env)
  : state * outcome :=
  match authResponse (authenticateApiKey g r) with
  | Some denied => (st, mkOutcome denied None)
  | None =>
      let (rl, decision) := rateLimiter (ip r) (now_rate e) (rateLimitStore st) in
      let st1 := mkState rl (cacheStore st) in
      match decision with
      | Denied retryAfter => (st1, mkOutcome (rateLimitedResponse retryAfter) None)
      | Allowed limit remaining resetAt =>
          cacheMiddleware g st1 (rateLimitHeaders limit remaining resetAt) r e
      end
  end.

(** A run of the gateway over a sequence of requests. *)
Fixpoint run (g : gateway) (st : state) (reqs : list (request * env))
  : state * list outcome :=
  match reqs with
  | [] => (st, [])
  | (r, e) :: rest =>
      let (st1, o) := handle g st r e in
      let (st2, os) := run g st1 rest in
      (st2, o :: os)
  end.

(** ** Further parts of the code *)

(** The headers that [onProxyReq] sets on the upstream request:
    [x-forwarded-api-key] when the request has a key, then
    [x-forwarded-by] and [x-forwarded-for]. *)
Definition forwardHeaders (r : request) : list (string * string) :=
  match apiKey r with
  | Some (String a k) => [("x-forwarded-api-key", String a k)]
  | _ => []
  end ++
  [("x-forwarded-by", "mini-api-gateway"); ("x-forwarded-for", ip r)].

(** The error object the error-handling middleware receives: the fields it
    reads, each possibly [undefined]. *)
Record jsError : Type := mkJsError {
  err_statusCode : option Z;
  err_status : option Z;
  err_message : option string
}.

(** [a || b] on a possibly [undefined] number: 0 is falsy. *)
Definition numOr (a : option Z) (b : Z) : Z :=
  match a with
  | Some n => if bool_decide (n = 0) then b else n
  | None => b
  end.

(** The error-handling middleware, [app.use((error, req, res, next) => ...)]:
    no answer of its own once the headers are sent (it calls [next(error)]),
    otherwise the JSON answer with the status taken from the error. *)
Definition errorHandler (headersSent : bool) (err : jsError) (r : request) (e : env)
  : option response :=
  if headersSent then None
  else
    let statusCode := numOr (err_statusCode err) (numOr (err_status err) 500) in
    let message :=
      match err_message err with
      | Some (String a m) => String a m
      | _ => "Internal Server Error"
      end in
    Some (mkResponse statusCode []
            (JsonBody [("error", JStr message);
                       ("timestamp", JDate (now_handler e));
                       ("path", JStr (originalUrl r));
                       ("method", JStr (method r))])).

(** The whole chain of [server.js] for one request. [express.json()] runs
    before everything else that answers: when it rejects the body it passes
    its error ([bodyError], with status 400 for malformed JSON) to
    [next], which skips the middleware stack and reaches the error-handling
    middleware, no header being sent yet. Otherwise ([None]: the body was
    parsed, or there was none to parse) the stack of [handle] runs. *)
Definition serve (g : gateway) (st : state) (r : request) (e : env)
    (bodyError : option jsError) : state * outcome :=
  match bodyError with
  | Some err =>
      match errorHandler false err r e with
      | Some answer => (st, mkOutcome answer None)
      | None => (st, mkOutcome (mkResponse 500 [] (JsonBody [])) None)
      end
  | None => handle g st r e
  end.

(** *** The mock users service of [test-backends.js] *)

(** A user as the service keeps it; [name] and [email] are whatever the
    request body held, [None] for a property that was absent. *)
Record user : Type := mkUser {
  user_id : Z;
  user_name : option json;
  user_email : option json
}.

(** The array [users] at start-up. *)
Definition initialUsers : list user :=
  [mkUser 1 (Some (JStr "John Doe")) (Some (JStr "john@example.com"));
   mkUser 2 (Some (JStr "Jane Smith")) (Some (JStr "jane@example.com"));
   mkUser 3 (Some (JStr "Bob Johnson")) (Some (JStr "bob@example.com"))].

(** [users.find(u => u.id === n)]; [n] is [parseInt(req.params.id)], [None]
    standing for [NaN], which is equal to no id. *)
Definition findUser (users : list user) (n : option Z) : option user :=
  match n with
  | Some i => List.find (λ u, bool_decide (user_id u = i)) users
  | None => None
  end.

(** [usersApp.get('/:id', ...)]: the status and the user found. *)
Definition usersGetById (users : list user) (n : option Z) : Z * option user :=
  match findUser users n with
  | Some u => (200, Some u)
  | None => (404, None)
  end.

(** [usersApp.post('/', ...)]: the array after the push, the status and the
    user created. *)
Definition usersPost (users : list user) (name email : option json)
  : list user * (Z * user) :=
  let newUser := mkUser (Z.of_nat (List.length users) + 1) name email in
  (users ++ [newUser], (201, newUser)).

(** The users array after a sequence of POST bodies. *)
Definition usersAfter (users : list user) (bodies : list (option json * option json))
  : list user :=
  foldl (λ us b, (usersPost us b.1 b.2).1) users bodies.

(** *** The mock auth service of [test-backends.js] *)

(** [v === s] for a string literal [s]: true for that string only. *)
Definition isString (v : option json) (s : string) : bool :=
  match v with
  | Some (JStr x) => bool_decide (x = s)
  | _ => false
  end.

(** [authApp.post('/login', ...)]: the status and, on success, the token;
    [stamp] is the rendering of [Date.now()] appended to the token. *)
Definition authLogin (username password : option json) (stamp : string)
  : Z * option string :=
  if isString username "admin" && isString password "secret"
  then (200, Some ("mock-jwt-token-" +:+ stamp))
  else (401, None).

(** [authApp.post('/verify', ...)] on [req.headers.authorization]. *)
Definition authVerify (authorization : option string) : Z :=
  match authorization with
  | Some token =>
      if startsWith token "Bearer mock-jwt-token" then 200 else 401
  | None => 401
  end.

(** ** Notions used in the statements *)

(** [route] is the first prefix of [config], in declaration order, that
    [path] starts with. *)
Definition firstMatch (config : Config) (path route target : string) : Prop :=
  ∃ before after : Config,
    config = (before ++ (route, target) :: after)%list ∧
    startsWith path route = true ∧
    Forall (λ kv, startsWith path kv.1 = false) before.

(** The window a request is counted in: the stored one while it is live, a
    fresh one starting [now] otherwise. *)
Definition currentWindow (now : Z) (m : RateLimitStore) (c : string) : ClientWindow :=
  match m !! c with
  | Some w => if bool_decide (now - windowStart w > windowMs) then mkWindow 0 now else w
  | None => mkWindow 0 now
  end.

(** A run of the rate limiter alone over the requests [(client, time)] that
    passed authentication, with the decision taken for each. *)
Fixpoint rateRun (m : RateLimitStore) (evs : list (string * Z))
  : list (string * rate_result) :=
  match evs with
  | [] => []
  | (c, now) :: evs' =>
      let (m', d) := rateLimiter c now m in
      (c, d) :: rateRun m' evs'
  end.

Definition requestsOf (c : string) (evs : list (string * Z)) : list (string * Z) :=
  filter (λ ev, ev.1 = c) evs.

Definition decisionsOf (c : string) (ds : list (string * rate_result)) : list rate_result :=
  (filter (λ d, d.1 = c) ds).*2.

(** The shape of [cacheStore] as a JavaScript [Map]: no key twice; and the
    bound that [cacheMiddleware] maintains. *)
Definition cacheWf (c : CacheStore) : Prop := NoDup (c.*1) ∧ (List.length c ≤ cacheMax)%nat.

(** A sequence of calls of the wrapper around [res.json], each with its
    key, the status code of the response, the body and the time. *)
Definition storeAll (ops : list (string * Z * obj * Z)) (c : CacheStore) : CacheStore :=
  foldl (λ acc op, storeOnJson op.1.1.1 op.1.1.2 op.1.2 op.2 acc) c ops.

Definition hasHeader (name : string) (res : response) : Prop :=
  name ∈ (headers res).*1.

(** The states the gateway can be in: those a sequence of requests leads to
    from the empty stores the process starts with. *)
Definition reachable (g : gateway) (st : state) : Prop := ∃ reqs, st = (run g initial reqs).1.

(** The clock readings of a sequence of requests never go back: each is at
    least the one before, starting from [prev]. *)
Fixpoint nondecreasing (prev : Z) (evs : list (string * Z)) : Prop :=
  match evs with
  | [] => True
  | (_, t) :: evs' => prev ≤ t ∧ nondecreasing t evs'
  end.

(** The decision for the [k]-th request of a window that started at [t1],
    made at time [t]: allowed with [10 - k] remaining up to the tenth, denied
    after that with the time left in the window, in seconds, rounded up. *)
Definition decisionAt (t1 : Z) (k : nat) (t : Z) : rate_result :=
  if bool_decide (k ≤ 10)%nat
  then Allowed 10 (10 - Z.of_nat k) (t1 + windowMs)
  else Denied (ceilDiv (windowMs - (t - t1)) 1000).

(** The ids of the users array are [s], [s + 1], ... in order. *)
Definition idsFrom (s : nat) (users : list user) : Prop :=
  user_id <$> users = (λ i, Z.of_nat i) <$> seq s (List.length users).

(** The ids of the users array are 1, 2, ... in order. *)
Definition usersWf (users : list user) : Prop := idsFrom 1 users.


(** The request is one for the 404 handler: no management endpoint and no
    mounted prefix matches its path. *)
Definition unrouted (g : gateway) (r : request) : Prop :=
  routeMatch "/health" (pathname (originalUrl r)) = false ∧
  routeMatch "/gateway/stats" (pathname (originalUrl r)) = false ∧
  existsb (λ kv, mountMatch kv.1 (pathname (originalUrl r))) (config g) = false.

(** The body a management endpoint computes for a path it serves. *)
Definition managementBody (g : gateway) (st : state) (e : env) (path : string) : obj :=
  if routeMatch "/health" path then healthBody g e else statsBody g st e.

(** ** A sample deployment, for the examples *)

(** The configuration documented in the README, with the default key. *)
Definition sampleConfig : Config :=
  [("/api/users", "http://localhost:5001");
   ("/api/orders", "http://localhost:5002");
   ("/api/products", "http://localhost:5003");
   ("/api/auth", "http://localhost:5004")].

Definition sampleGateway : gateway := mkGateway sampleConfig None.

(** A request served within one millisecond [t]. *)
Definition sampleEnv (t : Z) (answer : upstream_reply) : env :=
  mkEnv t t t t t t (JOpaque "uptime") (JOpaque "memoryUsage") answer.

Definition getRequest (url : string) (key : option string) : request :=
  mkRequest "GET" url key "127.0.0.1".

(** One hundred and one distinct cache keys. *)
Definition sampleKeys : list string :=
  (λ n, String (ascii_of_nat n) EmptyString) <$> seq 0 101.

Definition sampleStores (keys : list string) : list (string * Z * obj * Z) :=
  (λ k, (k, 200, [("ok", JBool true)], 0)) <$> keys.

(** * Properties *)

(** ** Strings *)

#[local] Arguments Ascii.eqb : simpl never.

Section StringFacts.

Implicit Types s p t : string.

Lemma startsWith_spec s p : startsWith s p = true ↔ ∃ t, s = p +:+ t.
Proof.
  revert s; induction p as [|c p IH]; intros s; simpl.
  - split; [intros _; exists s; reflexivity | reflexivity].
  - destruct s as [|d s]; simpl.
    + split; [discriminate | intros [t Ht]; discriminate].
    + destruct (Ascii.eqb_spec c d) as [->|Hcd].
      * rewrite IH. split; intros [t Ht]; exists t; [by rewrite Ht | by injection Ht].
      * split; [discriminate | intros [t Ht]; injection Ht; intros; by subst].
Qed.

Lemma startsWith_app p t : startsWith (p +:+ t) p = true.
Proof. apply startsWith_spec. by exists t. Qed.

Lemma dropStr_app p t : dropStr (String.length p) (p +:+ t) = t.
Proof. induction p as [|c p IH]; simpl; done. Qed.

(** When the pattern is a prefix, [replace] removes exactly that prefix:
    the first occurrence is the one at index 0. *)
Lemma replace_prefix s p :
  startsWith s p = true → replace s p "" = dropStr (String.length p) s.
Proof. intros H. destruct s; simpl; rewrite H; done. Qed.

Lemma split_nonempty s c : split s c ≠ [].
Proof.
  destruct s as [|d s]; simpl; [done|].
  destruct (Ascii.eqb c d); [done|]. by destruct (split s c).
Qed.

Lemma split_no_sep s c : includes s c = false → split s c = [s].
Proof.
  induction s as [|d s IH]; simpl; [done|].
  destruct (Ascii.eqb c d); [done|]. intros H. by rewrite (IH H).
Qed.

Lemma beforeQuestionMark_no_query url :
  queryOf url = None → beforeQuestionMark url = url.
Proof.
  intros H. unfold beforeQuestionMark. rewrite split_no_sep; [done|].
  induction url as [|d u IH]; simpl in *; [done|].
  destruct (Ascii.eqb "?" d); [done | by apply IH].
Qed.

Lemma queryOf_includes url : includes url "?" = bool_decide (is_Some (queryOf url)).
Proof.
  induction url as [|d u IH]; simpl; [done|].
  destruct (Ascii.eqb "?" d); [done | by rewrite IH].
Qed.

(** The second piece of [url.split('?')] is the whole query string exactly
    when the query string holds no further question mark. *)
Lemma split_second url q :
  queryOf url = Some q →
  split url "?" !! 1%nat = Some (beforeQuestionMark q).
Proof.
  unfold beforeQuestionMark. induction url as [|d u IH]; simpl; [done|].
  destruct (Ascii.eqb "?" d).
  - intros [= ->]. destruct (split q "?") eqn:E; [by apply split_nonempty in E | done].
  - intros H. specialize (IH H). destruct (split u "?") as [|w ws]; simpl in *; done.
Qed.

Lemma querySuffix_spec url :
  querySuffix url =
    match queryOf url with
    | Some q => "?" +:+ beforeQuestionMark q
    | None => ""
    end.
Proof.
  unfold querySuffix. rewrite queryOf_includes.
  destruct (queryOf url) as [q|] eqn:E.
  - rewrite bool_decide_eq_true_2; [|by eexists]. by rewrite (split_second _ _ E).
  - rewrite bool_decide_eq_false_2; [done | by intros [??]].
Qed.

End StringFacts.

(** ** Route table *)

Section RouteTable.

Implicit Types (config : Config) (path url route target : string).

Lemma router_first_match config path target :
  router config path = Some target ↔ ∃ route, firstMatch config path route target.
Proof.
  induction config as [|[r0 t0] config IH]; simpl.
  - split; [done|]. intros (route & before & after & H & _). by destruct before.
  - destruct (startsWith path r0) eqn:E.
    + split.
      * intros [= <-]. exists r0, [], config. by repeat split.
      * intros (route & before & after & H & Hm & Hb).
        destruct before as [|[r1 t1] before]; simplify_eq/=; [done|].
        inversion Hb; simplify_eq/=; congruence.
    + rewrite IH. split.
      * intros (route & before & after & -> & Hm & Hb).
        exists route, ((r0, t0) :: before), after. repeat split; [done|]. by constructor.
      * intros (route & before & after & H & Hm & Hb).
        destruct before as [|[r1 t1] before]; simplify_eq/=; [congruence|].
        inversion Hb; simplify_eq/=. exists route, before, after. by repeat split.
Qed.

Lemma router_none config path :
  router config path = None ↔ Forall (λ kv, startsWith path kv.1 = false) config.
Proof.
  induction config as [|[r0 t0] config IH]; simpl.
  - split; [by constructor | done].
  - destruct (startsWith path r0) eqn:E.
    + split; [done|]. inversion 1; simplify_eq/=; congruence.
    + rewrite IH. split; [by constructor | by inversion 1].
Qed.

Lemma newPath_first_match config path route target :
  firstMatch config path route target →
  newPath config path = or_else (dropStr (String.length route) path) "/".
Proof.
  intros (before & after & -> & Hm & Hb).
  induction before as [|[r1 t1] before IH]; simpl.
  - by rewrite Hm, replace_prefix.
  - inversion Hb as [|?? H1 H2]; simplify_eq/=. rewrite H1. by apply IH.
Qed.

(** What route resolution does in general: first match in declaration
    order, the matched prefix stripped (["/"] for an empty remainder), and
    the query string re-appended up to its first question mark. *)
Lemma resolve_spec config url route target rest :
  pathname url = route +:+ rest →
  firstMatch config (pathname url) route target →
  resolve config url =
    Some (target,
          or_else rest "/" +:+
          match queryOf url with
          | Some q => "?" +:+ beforeQuestionMark q
          | None => ""
          end).
Proof.
  intros Hp Hf. unfold resolve, onProxyReq.
  assert (router config (pathname url) = Some target) as ->
    by (apply router_first_match; eauto).
  rewrite (newPath_first_match _ _ _ _ Hf), querySuffix_spec, Hp, dropStr_app. done.
Qed.

(** The query string is passed on unchanged when it holds no question
    mark of its own. *)
Lemma resolve_plain_query config url route target rest q :
  pathname url = route +:+ rest →
  firstMatch config (pathname url) route target →
  queryOf url = Some q → includes q "?" = false →
  resolve config url = Some (target, or_else rest "/" +:+ "?" +:+ q).
Proof.
  intros Hp Hf Hq Hn. rewrite (resolve_spec _ _ _ _ _ Hp Hf), Hq.
  by rewrite (beforeQuestionMark_no_query q)
    by (rewrite queryOf_includes in Hn; apply bool_decide_eq_false in Hn;
        destruct (queryOf q); [exfalso; apply Hn; eauto | done]).
Qed.

Lemma resolve_none config url :
  resolve config url = None ↔
  Forall (λ kv, startsWith (pathname url) kv.1 = false) config.
Proof.
  unfold resolve. rewrite <- router_none.
  destruct (router config (pathname url)); split; done.
Qed.

End RouteTable.

Example resolve_users_123 :
  resolve [("/api/users", "http://x")] "/api/users/123" = Some ("http://x", "/123").
Proof. reflexivity. Qed.

Example resolve_exact_prefix :
  resolve [("/api/orders", "http://x")] "/api/orders" = Some ("http://x", "/").
Proof. reflexivity. Qed.

Example resolve_declaration_order :
  resolve [("/api", "http://a"); ("/api/users", "http://b")] "/api/users/1?x=1"
  = Some ("http://a", "/users/1?x=1").
Proof. reflexivity. Qed.

(** ** Rate limiter *)

Section RateLimiter.

Implicit Types (m : RateLimitStore) (w : ClientWindow) (c : string) (now : Z).

Lemma sweep_lookup_live now m c w :
  m !! c = Some w → now - windowStart w ≤ windowMs → sweep now m !! c = Some w.
Proof.
  intros Hm Hw. unfold sweep. apply map_lookup_filter_Some. split; [done|]. simpl. lia.
Qed.

Lemma sweep_lookup_expired now m c w :
  m !! c = Some w → now - windowStart w > windowMs → sweep now m !! c = None.
Proof.
  intros Hm Hw. unfold sweep. apply map_lookup_filter_None. right.
  intros w' Hw'. simplify_eq/=. intros H. lia.
Qed.

Lemma sweep_lookup_absent now m c : m !! c = None → sweep now m !! c = None.
Proof. intros Hm. unfold sweep. apply map_lookup_filter_None. by left. Qed.

Lemma rateLimiter_eq c now m :
  rateLimiter c now m =
    let w := currentWindow now m c in
    let w' := mkWindow (count w + 1) (windowStart w) in
    (<[c := w']> (sweep now m),
     if bool_decide (count w' > maxRequests)
     then Denied (ceilDiv (windowMs - (now - windowStart w')) 1000)
     else Allowed maxRequests (Z.max 0 (maxRequests - count w')) (windowStart w' + windowMs)).
Proof.
  unfold rateLimiter, currentWindow.
  destruct (m !! c) as [w|] eqn:Hm.
  - destruct (decide (now - windowStart w > windowMs)) as [Hx|Hx].
    + rewrite (sweep_lookup_expired _ _ _ _ Hm Hx).
      rewrite (bool_decide_eq_true_2 (now - windowStart w > windowMs)) by done.
      done.
    + rewrite (sweep_lookup_live _ _ _ _ Hm) by lia.
      rewrite !(bool_decide_eq_false_2 (now - windowStart w > windowMs)) by done.
      by case_bool_decide.
  - by rewrite (sweep_lookup_absent _ _ _ Hm).
Qed.

(** Requests of other clients leave a live window as it is. *)
Lemma rateLimiter_other c c' now m w :
  c ≠ c' → m !! c = Some w → now - windowStart w ≤ windowMs →
  (rateLimiter c' now m).1 !! c = Some w.
Proof.
  intros Hne Hm Hw. rewrite rateLimiter_eq. simpl.
  rewrite lookup_insert_ne by done. by apply sweep_lookup_live.
Qed.

Lemma ceilDiv_bounds a : 0 ≤ a ≤ windowMs → 0 ≤ ceilDiv a 1000 ≤ 60.
Proof.
  unfold ceilDiv, windowMs. intros H.
  assert (-60 ≤ (- a) / 1000) by (apply Z.div_le_lower_bound; lia).
  assert ((- a) / 1000 ≤ 0) by (apply Z.div_le_upper_bound; lia).
  lia.
Qed.

Lemma ceilDiv_pos a : 0 ≤ a → (0 < ceilDiv a 1000 ↔ 0 < a).
Proof.
  unfold ceilDiv. intros H. split; intros H1.
  - destruct (decide (a = 0)) as [->|]; [by vm_compute in H1 | lia].
  - assert ((- a) / 1000 < 0) by (apply Z.div_lt_upper_bound; lia). lia.
Qed.

(** Inside a window that already counts [k] requests of [c], the next
    requests of [c] are allowed as long as the count stays within the
    maximum, whatever other clients do in between. *)
Lemma rateRun_within_window c t1 (k : nat) m evs :
  m !! c = Some (mkWindow (Z.of_nat k) t1) →
  Forall (λ ev, ev.2 - t1 ≤ windowMs) evs →
  (k + List.length (requestsOf c evs) ≤ 10)%nat →
  decisionsOf c (rateRun m evs) =
    (λ j, Allowed 10 (10 - Z.of_nat j) (t1 + windowMs))
      <$> seq (S k) (List.length (requestsOf c evs)).
Proof.
  revert m k. induction evs as [|[c' now] evs IH]; intros m k Hm Ht Hn; [done|].
  inversion Ht as [|?? Hnow Ht']; simplify_eq/=.
  unfold requestsOf in *. rewrite rateLimiter_eq. cbv zeta.
  destruct (decide (c' = c)) as [->|Hne].
  - rewrite filter_cons_True in Hn |- * by done. simpl in Hn.
    unfold decisionsOf. rewrite filter_cons_True by done. simpl.
    unfold currentWindow. rewrite Hm. simpl.
    rewrite !(bool_decide_eq_false_2 (now - t1 > windowMs)) by lia.
    simpl.
    rewrite (bool_decide_eq_false_2 (Z.of_nat k + 1 > maxRequests))
      by (unfold maxRequests; lia).
    f_equal.
    + unfold maxRequests. f_equal. lia.
    + apply (IH _ (S k)); [|done|lia].
      rewrite lookup_insert_eq. do 2 f_equal. lia.
  - rewrite filter_cons_False in Hn |- * by done.
    unfold decisionsOf. rewrite filter_cons_False by done.
    apply IH; [|done|done].
    rewrite lookup_insert_ne by done. apply sweep_lookup_live; [done|]. simpl. lia.
Qed.

End RateLimiter.

(** ** Response cache *)

Section ResponseCache.

Implicit Types (c : CacheStore) (key k : string) (v entry : CacheEntry).

Lemma cacheSet_absent key v c : key ∉ c.*1 → cacheSet key v c = c ++ [(key, v)].
Proof.
  induction c as [|[k w] c IH]; csimpl; [done|].
  intros Hn. apply not_elem_of_cons in Hn as [Hk Hc].
  rewrite bool_decide_eq_false_2 by done. by rewrite IH.
Qed.

Lemma cacheSet_present key v c :
  key ∈ c.*1 → (cacheSet key v c).*1 = c.*1.
Proof.
  induction c as [|[k w] c IH]; csimpl; [by intros ?%elem_of_nil|].
  case_bool_decide as Hk; csimpl; [by subst|].
  intros [?|Hc]%elem_of_cons; [done|]. by rewrite IH.
Qed.

Lemma cacheGet_cacheSet_eq key v c : cacheGet key (cacheSet key v c) = Some v.
Proof.
  induction c as [|[k w] c IH]; csimpl.
  - by rewrite bool_decide_eq_true_2.
  - case_bool_decide as Hk; csimpl.
    + by rewrite bool_decide_eq_true_2.
    + by rewrite bool_decide_eq_false_2.
Qed.

Lemma cacheGet_cacheSet_ne key k v c :
  key ≠ k → cacheGet k (cacheSet key v c) = cacheGet k c.
Proof.
  intros Hne. induction c as [|[k' w] c IH]; csimpl.
  - by rewrite bool_decide_eq_false_2.
  - case_bool_decide as Hk; csimpl.
    + subst. by rewrite !bool_decide_eq_false_2.
    + by rewrite IH.
Qed.

Lemma cacheGet_None key c : key ∉ c.*1 → cacheGet key c = None.
Proof.
  induction c as [|[k w] c IH]; csimpl; [done|].
  intros [Hk Hc]%not_elem_of_cons. by rewrite bool_decide_eq_false_2, IH.
Qed.

Lemma cacheGet_app key c c' :
  key ∉ c.*1 → cacheGet key (c ++ c') = cacheGet key c'.
Proof.
  induction c as [|[k w] c IH]; csimpl; [done|].
  intros [Hk Hc]%not_elem_of_cons. by rewrite bool_decide_eq_false_2, IH.
Qed.

Lemma cacheGet_delete key k c :
  cacheGet k (cacheDelete key c) = if bool_decide (k = key) then None else cacheGet k c.
Proof.
  unfold cacheDelete. induction c as [|[k' w] c IH]; csimpl.
  - by case_bool_decide.
  - destruct (decide (k' = key)) as [->|Hk].
    + rewrite filter_cons_False by (simpl; tauto). rewrite IH.
      repeat case_bool_decide; congruence.
    + rewrite filter_cons_True by done. csimpl. rewrite IH.
      repeat case_bool_decide; congruence.
Qed.

Lemma cacheDelete_absent key c : key ∉ c.*1 → cacheDelete key c = c.
Proof.
  unfold cacheDelete. induction c as [|[k w] c IH]; csimpl; [done|].
  intros [Hk Hc]%not_elem_of_cons.
  rewrite filter_cons_True by (simpl; congruence). by rewrite IH.
Qed.

(** Deleting the first [n] keys of the iteration order removes the first
    [n] bindings. *)
Lemma delete_first_keys n c :
  NoDup (c.*1) →
  foldl (λ acc key, cacheDelete key acc) c (take n (c.*1)) = drop n c.
Proof.
  revert n. induction c as [|[k w] c IH]; intros n Hnd; csimpl.
  - by destruct n.
  - destruct n as [|n]; csimpl; [done|].
    apply NoDup_cons in Hnd as [Hk Hnd].
    unfold cacheDelete at 2. rewrite filter_cons_False by (simpl; tauto).
    fold (cacheDelete k c). rewrite cacheDelete_absent by done. by apply IH.
Qed.

Lemma evict_drop c : NoDup (c.*1) → evict c = drop evictBatch c.
Proof. apply delete_first_keys. Qed.

(** Whatever is found after deletions was there before them. *)
Lemma cacheGet_deletions k entry (keys : list string) c :
  cacheGet k (foldl (λ acc key, cacheDelete key acc) c keys) = Some entry →
  cacheGet k c = Some entry.
Proof.
  revert c. induction keys as [|key keys IH]; intros c; csimpl; [done|].
  intros H%IH. rewrite cacheGet_delete in H. by case_bool_decide.
Qed.

Lemma cacheSet_NoDup key v c : NoDup (c.*1) → NoDup ((cacheSet key v c).*1).
Proof.
  intros Hnd. destruct (decide (key ∈ c.*1)) as [Hin|Hin].
  - by rewrite cacheSet_present.
  - rewrite cacheSet_absent, fmap_app by done. csimpl.
    apply NoDup_app. split_and!; [done| |apply NoDup_singleton].
    intros x Hx ->%list_elem_of_singleton. done.
Qed.

Lemma cacheSet_length key v c :
  List.length (cacheSet key v c) =
    if bool_decide (key ∈ c.*1) then List.length c else S (List.length c).
Proof.
  case_bool_decide as Hin.
  - rewrite <- !(length_fmap fst). by rewrite cacheSet_present.
  - rewrite cacheSet_absent, length_app by done. csimpl. lia.
Qed.

(** The wrapper around [res.json] stores on status 200 only. *)
Lemma storeOnJson_other_status key code d now c :
  code ≠ 200 → storeOnJson key code d now c = c.
Proof. intros H. unfold storeOnJson. by rewrite bool_decide_eq_false_2. Qed.

Lemma storeOnJson_200 key d now c :
  cacheWf c →
  storeOnJson key 200 d now c =
    let c1 := cacheSet key (mkEntry d now) c in
    if bool_decide (cacheMax < List.length c1)%nat then drop evictBatch c1 else c1.
Proof.
  intros [Hnd _]. unfold storeOnJson. rewrite bool_decide_eq_true_2 by done.
  cbv zeta. case_bool_decide; [|done]. by rewrite evict_drop by by apply cacheSet_NoDup.
Qed.

Lemma storeOnJson_wf key code d now c :
  cacheWf c → cacheWf (storeOnJson key code d now c).
Proof.
  intros Hwf. destruct (decide (code = 200)) as [->|Hc];
    [|by rewrite storeOnJson_other_status].
  rewrite storeOnJson_200 by done. destruct Hwf as [Hnd Hlen]. cbv zeta.
  pose proof (cacheSet_NoDup key (mkEntry d now) c Hnd) as Hnd1.
  pose proof (cacheSet_length key (mkEntry d now) c) as Hlen1.
  unfold cacheWf, cacheMax, evictBatch in *.
  case_bool_decide as Hbig; case_bool_decide; split; try done; try lia.
  - rewrite fmap_drop. eapply sublist_NoDup; [done | apply sublist_drop].
  - rewrite length_drop. lia.
Qed.

(** The insert that takes the size over the maximum leaves
    [max - batch + 1] bindings. *)
Lemma storeOnJson_crossing key d now c :
  cacheWf c →
  (cacheMax < List.length (cacheSet key (mkEntry d now) c))%nat →
  List.length (storeOnJson key 200 d now c) = (cacheMax - evictBatch + 1)%nat.
Proof.
  intros Hwf Hbig. rewrite storeOnJson_200 by done. cbv zeta.
  rewrite bool_decide_eq_true_2 by done. rewrite length_drop.
  destruct Hwf as [_ Hlen]. rewrite cacheSet_length in Hbig |- *.
  unfold cacheMax, evictBatch in *. case_bool_decide; lia.
Qed.

(** A store under one key brings nothing new under another key. *)
Lemma storeOnJson_get_other key k code d now c entry :
  key ≠ k →
  cacheGet k (storeOnJson key code d now c) = Some entry →
  cacheGet k c = Some entry.
Proof.
  intros Hne. unfold storeOnJson. case_bool_decide as Hcode; [|done].
  cbv zeta. case_bool_decide as Hbig.
  - unfold evict. intros Hget%cacheGet_deletions.
    by rewrite cacheGet_cacheSet_ne in Hget.
  - by rewrite cacheGet_cacheSet_ne.
Qed.

(** A successful answer is found under its key right after the store, also
    when that store evicts. *)
Lemma storeOnJson_get_same key d now c :
  cacheWf c →
  cacheGet key (storeOnJson key 200 d now c) = Some (mkEntry d now).
Proof.
  intros Hwf. rewrite storeOnJson_200 by done. cbv zeta.
  case_bool_decide as Hbig; [|apply cacheGet_cacheSet_eq].
  destruct Hwf as [Hnd Hlen]. rewrite cacheSet_length in Hbig.
  unfold cacheMax, evictBatch in *.
  case_bool_decide as Hin; [lia|].
  rewrite cacheSet_absent by done. rewrite drop_app_le by lia.
  rewrite cacheGet_app; [csimpl; by rewrite bool_decide_eq_true_2|].
  rewrite fmap_drop. intros Hd. apply Hin.
  eapply elem_of_sublist; [done | apply sublist_drop].
Qed.

End ResponseCache.

(** ** Pipeline *)

(** In [cacheMiddleware], take the branch of a request whose method is
    known to be GET. *)
Ltac get_branch :=
  rewrite (bool_decide_eq_false_2 (_ ≠ "GET")) by (intros Hne; by apply Hne).

Section Pipeline.

Implicit Types (g : gateway) (st : state) (r : request) (e : env).

Lemma validApiKey_nonempty g : validApiKey g ≠ "".
Proof.
  unfold validApiKey. destruct (API_KEY g) as [[|a k]|]; simpl; done.
Qed.

Lemma authenticate_ok g r :
  authenticateApiKey g r = AuthOk ↔ apiKey r = Some (validApiKey g).
Proof.
  unfold authenticateApiKey. pose proof (validApiKey_nonempty g) as Hv.
  destruct (apiKey r) as [[|a k]|]; [| |done].
  - split; [done | intros [= H]; by rewrite <- H in Hv].
  - destruct (decide (String a k = validApiKey g)) as [Heq|Hne].
    + rewrite bool_decide_eq_false_2 by (intros ?; done). by rewrite Heq.
    + rewrite bool_decide_eq_true_2 by done. split; [done | congruence].
Qed.

Lemma authResponse_status a denied : authResponse a = Some denied → status denied = 401.
Proof. destruct a; intros [= <-]; done. Qed.

Lemma authResponse_ok a : authResponse a = None ↔ a = AuthOk.
Proof. destruct a; split; done. Qed.

(** A request that fails authentication is answered by [authenticateApiKey]
    itself and nothing else runs. *)
Lemma handle_unauthenticated g st r e :
  authenticateApiKey g r ≠ AuthOk →
  ∃ denied, authResponse (authenticateApiKey g r) = Some denied ∧
            handle g st r e = (st, mkOutcome denied None).
Proof.
  intros Ha. unfold handle.
  destruct (authResponse (authenticateApiKey g r)) as [denied|] eqn:E; [eauto|].
  by apply authResponse_ok in E.
Qed.

Lemma handle_authenticated g st r e :
  authenticateApiKey g r = AuthOk →
  handle g st r e =
    let st1 := mkState (rateLimiter (ip r) (now_rate e) (rateLimitStore st)).1
                       (cacheStore st) in
    match (rateLimiter (ip r) (now_rate e) (rateLimitStore st)).2 with
    | Denied retryAfter => (st1, mkOutcome (rateLimitedResponse retryAfter) None)
    | Allowed limit remaining resetAt =>
        cacheMiddleware g st1 (rateLimitHeaders limit remaining resetAt) r e
    end.
Proof.
  intros Ha. unfold handle. rewrite Ha. simpl.
  by destruct (rateLimiter (ip r) (now_rate e) (rateLimitStore st)).
Qed.

(** The headers set before [cacheMiddleware] runs are on every answer that
    it or a handler behind it gives. *)
Lemma cacheMiddleware_headers g st hs r e :
  ∃ more, headers (resp (cacheMiddleware g st hs r e).2) = hs ++ more.
Proof.
  unfold cacheMiddleware. case_bool_decide; [by eexists|].
  destruct (cacheLookup _ _ _); simpl; [|by eexists].
  exists []. by rewrite app_nil_r.
Qed.

(** [cacheStore] changes in one place only: the wrapper around [res.json],
    under the key of the request being served. *)
Lemma cacheMiddleware_cache g st hs r e :
  cacheStore (cacheMiddleware g st hs r e).1 = cacheStore st ∨
  ∃ code d, cacheStore (cacheMiddleware g st hs r e).1 =
            storeOnJson (cacheKey r) code d (now_store e) (cacheStore st).
Proof.
  unfold cacheMiddleware. case_bool_decide; [by left|].
  destruct (cacheLookup _ _ _); simpl; [by left|].
  destruct (h_body _); [right; eauto | by left].
Qed.

Lemma handle_cache g st r e :
  cacheStore (handle g st r e).1 = cacheStore st ∨
  ∃ code d, cacheStore (handle g st r e).1 =
            storeOnJson (cacheKey r) code d (now_store e) (cacheStore st).
Proof.
  destruct (decide (authenticateApiKey g r = AuthOk)) as [Ha|Ha].
  - rewrite handle_authenticated by done. cbv zeta.
    destruct (rateLimiter _ _ _).2; [by left|].
    apply (cacheMiddleware_cache g (mkState _ _)).
  - destruct (handle_unauthenticated g st r e Ha) as (? & _ & ->). by left.
Qed.

Lemma handle_cacheWf g st r e :
  cacheWf (cacheStore st) → cacheWf (cacheStore (handle g st r e).1).
Proof.
  intros Hwf. destruct (handle_cache g st r e) as [->|(code & d & ->)]; [done|].
  by apply storeOnJson_wf.
Qed.

Lemma run_cacheWf g st reqs :
  cacheWf (cacheStore st) → cacheWf (cacheStore (run g st reqs).1).
Proof.
  revert st. induction reqs as [|[r e] reqs IH]; intros st Hwf; simpl; [done|].
  pose proof (handle_cacheWf g st r e Hwf) as H1.
  destruct (handle g st r e) as [st1 o]. simpl in H1.
  specialize (IH st1 H1). by destruct (run g st1 reqs).
Qed.

Lemma reachable_cacheWf g st : reachable g st → cacheWf (cacheStore st).
Proof.
  intros [reqs ->]. apply run_cacheWf. split; [constructor | simpl; lia].
Qed.


Lemma append_inj_r (s a b : string) : s +:+ a = s +:+ b → a = b.
Proof. induction s as [|c s IH]; simpl; [done|]. intros [= H]. by apply IH. Qed.

(** For one method and one URL the key determines the credential. *)
Lemma cacheKey_credential r1 r2 k1 k2 :
  method r1 = method r2 → originalUrl r1 = originalUrl r2 →
  apiKey r1 = Some k1 → apiKey r2 = Some k2 →
  cacheKey r1 = cacheKey r2 → k1 = k2.
Proof.
  unfold cacheKey. intros -> -> -> ->. simpl.
  intros H. apply (append_inj_r (method r2)) in H. injection H as H.
  apply (append_inj_r (originalUrl r2)) in H. by injection H.
Qed.

Lemma cacheLookup_Some key now c entry :
  cacheLookup key now c = Some entry ↔
  cacheGet key c = Some entry ∧ now - timestamp entry < cacheTtl.
Proof.
  unfold cacheLookup.
  destruct (cacheGet key c) as [x|]; [|split; [done | by intros [? _]]].
  case_bool_decide as Ht; split.
  - by intros [= ->].
  - by intros [[= ->] _].
  - done.
  - by intros [[= ->] ?].
Qed.

(** A live entry under the key of a GET is served as it was stored, with
    the two marks added; no handler runs and both stores stay as they are. *)
Lemma cacheMiddleware_hit g st hs r e entry :
  method r = "GET" →
  cacheGet (cacheKey r) (cacheStore st) = Some entry →
  now_lookup e - timestamp entry < cacheTtl →
  cacheMiddleware g st hs r e =
    (st, mkOutcome (mkResponse 200 hs (JsonBody (cachedBody entry))) None).
Proof.
  intros Hm Hget Httl. unfold cacheMiddleware.
  get_branch.
  by rewrite (proj2 (cacheLookup_Some _ _ _ _) (conj Hget Httl)).
Qed.

(** An entry as old as the TTL or older is not served: the handlers run
    again. *)
Lemma cacheMiddleware_expired g st hs r e entry :
  method r = "GET" →
  cacheGet (cacheKey r) (cacheStore st) = Some entry →
  cacheTtl ≤ now_lookup e - timestamp entry →
  (cacheMiddleware g st hs r e).2 = respond hs (dispatch g st r e).
Proof.
  intros Hm Hget Httl. unfold cacheMiddleware.
  get_branch.
  unfold cacheLookup. rewrite Hget, bool_decide_eq_false_2 by lia. done.
Qed.

(** A response relayed by the proxy is never stored. *)
Lemma relayed_not_stored g st hs r e :
  (∃ raw, body (resp (cacheMiddleware g st hs r e).2) = Streamed raw) →
  cacheStore (cacheMiddleware g st hs r e).1 = cacheStore st.
Proof.
  unfold cacheMiddleware. case_bool_decide; [done|].
  destruct (cacheLookup _ _ _); simpl; [done|].
  destruct (h_body _); [intros [? ?]; done | done].
Qed.

End Pipeline.

(** * The claims of the specification *)

(** ** C1: a repeated GET and the cache *)

(** C1. The claim: an identical GET repeated within the TTL is answered
    from the cache and does not reach the upstream a second time. What the
    code does for a proxied route: the upstream answer is relayed as a
    stream and never passes through the wrapper around [res.json], so
    nothing is stored; the repeat one second later is a miss and is
    forwarded again, its answer carries no [_cached] mark, and the cache is
    still empty. *)
Theorem repeated_proxied_get_is_forwarded_again :
  let r := getRequest "/api/users" (Some "gateway-secret-key") in
  let answer := Relayed 200 "[{id:1}]" in
  let result := run sampleGateway initial
                  [(r, sampleEnv 1000 answer); (r, sampleEnv 2000 answer)] in
  upstream <$> result.2 =
    [Some ("http://localhost:5001", "/"); Some ("http://localhost:5001", "/")] ∧
  (λ o, body (resp o)) <$> result.2 = [Streamed "[{id:1}]"; Streamed "[{id:1}]"] ∧
  (λ o, status (resp o)) <$> result.2 = [200; 200] ∧
  cacheStore result.1 = [].
Proof. vm_compute. done. Qed.

(** ** C2: the health endpoint and authentication *)

(** C2. The claim: a GET of [/health] succeeds with 200 without any
    [x-api-key]. What the code does: [authenticateApiKey] is mounted before
    the [/health] route, so the request is answered 401 with the
    missing-key error and the health handler never runs. *)
Theorem health_without_key_is_rejected :
  let o := (handle sampleGateway initial (getRequest "/health" None)
              (sampleEnv 1000 Unavailable)).2 in
  status (resp o) = 401 ∧
  body (resp o) =
    JsonBody [("error", JStr "Missing API key. Please provide x-api-key header.")] ∧
  status (resp o) ≠ 200.
Proof. vm_compute. split_and!; [done | done | discriminate]. Qed.

(** What the code does for every route: whatever the path, a request
    without the valid key is answered 401. A GET of [/health] with the
    valid key that the rate limiter admits is answered 200, and when it is
    not served from the cache its body is the object with the properties
    status, timestamp, uptime and routes. *)
Lemma authentication_has_no_exemption g st r e :
  (apiKey r ≠ Some (validApiKey g) → status (resp (handle g st r e).2) = 401) ∧
  (apiKey r = Some (validApiKey g) →
   method r = "GET" → pathname (originalUrl r) = "/health" →
   status (resp (handle g st r e).2) ≠ 429 →
   status (resp (handle g st r e).2) = 200 ∧
   (cacheLookup (cacheKey r) (now_lookup e) (cacheStore st) = None →
    body (resp (handle g st r e).2) = JsonBody (healthBody g e) ∧
    (healthBody g e).*1 = ["status"; "timestamp"; "uptime"; "routes"])).
Proof.
  split.
  - intros Hk. rewrite <- authenticate_ok in Hk.
    destruct (handle_unauthenticated g st r e Hk) as (denied & Hd & ->).
    simpl. by eapply authResponse_status.
  - intros Hk Hm Hp. rewrite <- authenticate_ok in Hk.
    rewrite handle_authenticated by done. cbv zeta.
    destruct (rateLimiter _ _ _).2 as [ra|l rem reset]; [done|]. intros _.
    unfold cacheMiddleware. simpl. rewrite Hm. simpl.
    destruct (cacheLookup _ _ _) as [cached|]; simpl; [done|].
    unfold dispatch. rewrite Hm, Hp. simpl. done.
Qed.

Example health_with_the_key :
  let g := sampleGateway in
  let e := sampleEnv 1000 Unavailable in
  status (resp (handle g initial (getRequest "/health" (Some "wrong")) e).2) = 401 ∧
  body (resp (handle g initial (getRequest "/health" (Some "gateway-secret-key")) e).2)
    = JsonBody (healthBody g e).
Proof.
  split.
  - apply (proj1 (authentication_has_no_exemption _ _ _ _)). vm_compute. discriminate.
  - apply (proj2 (authentication_has_no_exemption sampleGateway initial
                    (getRequest "/health" (Some "gateway-secret-key"))
                    (sampleEnv 1000 Unavailable)));
      [reflexivity | reflexivity | reflexivity | vm_compute; discriminate | reflexivity].
Qed.

(** ** C3: the request after the maximum *)

(** C3, as stated, fails: a window is still the same window when exactly
    [windowMs] have passed since its start (the reset test is a strict
    [>]); a request at that instant is denied with [retryAfter] 0, which
    is not strictly positive. *)
Lemma retry_after_zero_at_window_end :
  ¬ (∀ (c : string) (now : Z) (m : RateLimitStore) (w : ClientWindow),
       m !! c = Some w → count w = maxRequests →
       0 ≤ now - windowStart w ≤ windowMs →
       ∃ retryAfter, (rateLimiter c now m).2 = Denied retryAfter ∧
                     0 < retryAfter ≤ 60).
Proof.
  intros H.
  destruct (H "127.0.0.1" 60000 {["127.0.0.1" := mkWindow 10 0]} (mkWindow 10 0))
    as (ra & Hd & Hpos & _); [done | done | by vm_compute |].
  vm_compute in Hd. injection Hd as <-. lia.
Qed.

(** C3, amended. For a client whose window holds [count = max], the next
    request inside that window (at most [windowMs] after its start) is
    denied with status 429 and
    [retryAfter = ceil((windowMs - (now - windowStart)) / 1000)], which lies
    between 0 and 60; it is strictly positive exactly when less than
    [windowMs] have passed since the start of the window. *)
Theorem request_over_the_limit_is_denied g st r e w :
  authenticateApiKey g r = AuthOk →
  rateLimitStore st !! ip r = Some w →
  count w = maxRequests →
  0 ≤ now_rate e - windowStart w ≤ windowMs →
  let retryAfter := ceilDiv (windowMs - (now_rate e - windowStart w)) 1000 in
  (handle g st r e).2 = mkOutcome (rateLimitedResponse retryAfter) None ∧
  status (rateLimitedResponse retryAfter) = 429 ∧
  0 ≤ retryAfter ≤ 60 ∧
  (0 < retryAfter ↔ now_rate e - windowStart w < windowMs).
Proof.
  intros Ha Hw Hc Ht. cbv zeta. split_and!.
  - rewrite handle_authenticated by done. cbv zeta.
    rewrite rateLimiter_eq. cbv zeta. unfold currentWindow. rewrite Hw.
    rewrite !(bool_decide_eq_false_2 (now_rate e - windowStart w > windowMs)) by lia.
    simpl. rewrite Hc. done.
  - done.
  - apply ceilDiv_bounds. lia.
  - apply ceilDiv_bounds. lia.
  - rewrite ceilDiv_pos by lia. lia.
Qed.

Lemma request_over_the_limit_is_denied_witness :
  let st := mkState {["127.0.0.1" := mkWindow 10 0]} [] in
  (handle sampleGateway st (getRequest "/api/users" (Some "gateway-secret-key"))
     (sampleEnv 15500 Unavailable)).2
  = mkOutcome (rateLimitedResponse 45) None.
Proof.
  apply (request_over_the_limit_is_denied sampleGateway
           (mkState {["127.0.0.1" := mkWindow 10 0]} [])
           (getRequest "/api/users" (Some "gateway-secret-key"))
           (sampleEnv 15500 Unavailable) (mkWindow 10 0));
    [reflexivity | reflexivity | reflexivity | by vm_compute].
Defined.

(** ** C4: the quota headers *)

(** C4, as stated, fails: the eleventh request of a window passes
    authentication and is answered 429 without any [X-RateLimit-*] header. *)
Lemma denied_response_has_no_quota_headers :
  let st := mkState {["127.0.0.1" := mkWindow 10 0]} [] in
  let r := getRequest "/api/users" (Some "gateway-secret-key") in
  let o := (handle sampleGateway st r (sampleEnv 1000 Unavailable)).2 in
  authenticateApiKey sampleGateway r = AuthOk ∧
  status (resp o) = 429 ∧
  headers (resp o) = [] ∧
  ¬ hasHeader "X-RateLimit-Limit" (resp o).
Proof.
  vm_compute. split_and!; [done | done | done |]. by intros ?%elem_of_nil.
Qed.

(** C4, amended. An authenticated request that the rate limiter admits is
    answered with the headers [X-RateLimit-Limit], [X-RateLimit-Remaining]
    and [X-RateLimit-Reset], whoever answers it (the cache, a management
    endpoint, the proxy or the 404 handler). A request that the rate
    limiter denies is answered 429 with the retry delay in the body and
    without those headers. *)
Theorem quota_headers_on_allowed_requests g st r e :
  authenticateApiKey g r = AuthOk →
  match (rateLimiter (ip r) (now_rate e) (rateLimitStore st)).2 with
  | Allowed limit remaining resetAt =>
      hasHeader "X-RateLimit-Limit" (resp (handle g st r e).2) ∧
      hasHeader "X-RateLimit-Remaining" (resp (handle g st r e).2) ∧
      hasHeader "X-RateLimit-Reset" (resp (handle g st r e).2) ∧
      take 3 (headers (resp (handle g st r e).2)) =
        rateLimitHeaders limit remaining resetAt
  | Denied retryAfter =>
      resp (handle g st r e).2 = rateLimitedResponse retryAfter ∧
      status (resp (handle g st r e).2) = 429 ∧
      headers (resp (handle g st r e).2) = []
  end.
Proof.
  intros Ha. rewrite handle_authenticated by done. cbv zeta.
  destruct (rateLimiter _ _ _).2 as [ra|l rem reset]; [done|].
  destruct (cacheMiddleware_headers g
              (mkState (rateLimiter (ip r) (now_rate e) (rateLimitStore st)).1
                       (cacheStore st))
              (rateLimitHeaders l rem reset) r e) as [more Hh].
  unfold hasHeader. rewrite Hh. unfold rateLimitHeaders. csimpl.
  split_and!; [set_solver | set_solver | set_solver | done].
Qed.

Lemma quota_headers_on_allowed_requests_witness :
  let o := (handle sampleGateway initial
              (getRequest "/api/users" (Some "gateway-secret-key"))
              (sampleEnv 1000 (Relayed 200 "[]"))).2 in
  hasHeader "X-RateLimit-Limit" (resp o) ∧
  hasHeader "X-RateLimit-Remaining" (resp o) ∧
  hasHeader "X-RateLimit-Reset" (resp o) ∧
  take 3 (headers (resp o)) = rateLimitHeaders 10 9 61000.
Proof.
  apply (quota_headers_on_allowed_requests sampleGateway initial
           (getRequest "/api/users" (Some "gateway-secret-key"))
           (sampleEnv 1000 (Relayed 200 "[]"))).
  reflexivity.
Defined.

(** ** C5: authentication failures and the shared state *)

(** What [authenticateApiKey] does with a request that reaches it without
    the configured key: the answer is 401, both stores are exactly as
    before, no upstream call is made, and the answer does not depend on the
    stores. *)
Lemma handle_without_key g st r e :
  apiKey r ≠ Some (validApiKey g) →
  status (resp (handle g st r e).2) = 401 ∧
  (handle g st r e).1 = st ∧
  upstream (handle g st r e).2 = None ∧
  ∀ st', (handle g st' r e).2 = (handle g st r e).2.
Proof.
  intros Hk. rewrite <- authenticate_ok in Hk.
  destruct (handle_unauthenticated g st r e Hk) as (denied & Hd & ->).
  split_and!; [by eapply authResponse_status | done | done |].
  intros st'. destruct (handle_unauthenticated g st' r e Hk) as (denied' & Hd' & ->).
  simpl. congruence.
Qed.

(** C5, as stated, fails: the JSON body parser runs before authentication,
    so a request without [x-api-key] whose body is not well-formed JSON is
    answered 400 by the error-handling middleware, not 401. *)
Lemma keyless_request_with_bad_body_gets_400 :
  let r := mkRequest "POST" "/api/users" None "127.0.0.1" in
  let rejected := mkJsError (Some 400) (Some 400) (Some "Unexpected end of JSON input") in
  let o := (serve sampleGateway initial r (sampleEnv 1000 Unavailable) (Some rejected)).2 in
  apiKey r = None ∧ status (resp o) = 400 ∧ status (resp o) ≠ 401.
Proof. vm_compute. split_and!; [done | done | discriminate]. Qed.

(** C5, amended. For a request that presents no [x-api-key], or one that
    differs from the configured key, both stores are exactly as before, no
    upstream call is made and the answer does not depend on the stores
    (they are not read). The answer is 401 when the JSON body parser lets
    the request through; when it rejects the body, the error-handling
    middleware answers with the status of the parser's error, and
    authentication is not reached. *)
Theorem keyless_request_leaves_state g st r e bodyError :
  apiKey r ≠ Some (validApiKey g) →
  (serve g st r e bodyError).1 = st ∧
  upstream (serve g st r e bodyError).2 = None ∧
  (∀ st', (serve g st' r e bodyError).2 = (serve g st r e bodyError).2) ∧
  match bodyError with
  | None => status (resp (serve g st r e bodyError).2) = 401
  | Some err =>
      status (resp (serve g st r e bodyError).2) =
        numOr (err_statusCode err) (numOr (err_status err) 500)
  end.
Proof.
  intros Hk. destruct bodyError as [err|]; simpl.
  - done.
  - destruct (handle_without_key g st r e Hk) as (H401 & Hst & Hup & Hind). done.
Qed.

Lemma keyless_request_leaves_state_witness :
  let st := mkState {["127.0.0.1" := mkWindow 3 0]} [] in
  let o := serve sampleGateway st (getRequest "/api/users" None)
             (sampleEnv 1000 (Relayed 200 "[]")) None in
  o.1 = st ∧ status (resp o.2) = 401.
Proof.
  pose proof (keyless_request_leaves_state sampleGateway
                (mkState {["127.0.0.1" := mkWindow 3 0]} [])
                (getRequest "/api/users" None)
                (sampleEnv 1000 (Relayed 200 "[]")) None) as H.
  destruct H as (H1 & _ & _ & H2); [discriminate|]. split; assumption.
Defined.

(** ** C6: stores and eviction *)

Lemma storeAll_wf ops c : cacheWf c → cacheWf (storeAll ops c).
Proof.
  revert c. induction ops as [|op ops IH]; intros c Hwf; [done|].
  apply IH. by apply storeOnJson_wf.
Qed.

(** C6. After any sequence of calls of the wrapper around [res.json] on the
    empty cache, a further call stores only when the status is 200; when
    its insertion takes the size over the maximum of 100, the 10 bindings
    that come first in insertion order are removed at once, which leaves
    100 - 10 + 1 = 91 bindings; the size never stays above the maximum. *)
Theorem eviction_keeps_cache_bounded ops key code d now :
  let c := storeAll ops [] in
  let c1 := cacheSet key (mkEntry d now) c in
  let c' := storeOnJson key code d now c in
  (code ≠ 200 → c' = c) ∧
  (code = 200 → (List.length c1 ≤ cacheMax)%nat → c' = c1) ∧
  (code = 200 → (cacheMax < List.length c1)%nat →
     c' = drop evictBatch c1 ∧
     List.length c' = (cacheMax - evictBatch + 1)%nat) ∧
  (List.length c' ≤ cacheMax)%nat.
Proof.
  assert (cacheWf (storeAll ops [])) as Hwf
    by (apply storeAll_wf; split; [constructor | simpl; lia]).
  cbv zeta. split_and!.
  - apply storeOnJson_other_status.
  - intros -> Hlen. rewrite storeOnJson_200 by done. cbv zeta.
    by rewrite bool_decide_eq_false_2 by lia.
  - intros -> Hlen. split; [|by apply storeOnJson_crossing].
    rewrite storeOnJson_200 by done. cbv zeta. by rewrite bool_decide_eq_true_2.
  - apply (storeOnJson_wf key code d now _ Hwf).
Qed.

Lemma eviction_keeps_cache_bounded_witness :
  let c := storeAll (sampleStores (take 100 sampleKeys)) [] in
  List.length c = 100%nat ∧
  List.length (storeOnJson "fresh" 200 [] 5 c) = 91%nat ∧
  storeOnJson "fresh" 404 [] 5 c = c.
Proof.
  split; [by vm_compute|]. split.
  - apply (proj1 (proj2 (proj2 (eviction_keeps_cache_bounded
             (sampleStores (take 100 sampleKeys)) "fresh" 200 [] 5))));
      [reflexivity | vm_compute; lia].
  - apply (proj1 (eviction_keeps_cache_bounded
             (sampleStores (take 100 sampleKeys)) "fresh" 404 [] 5)).
    discriminate.
Defined.

(** ** C7: route resolution *)

(** C7. The claim: the original query string is re-appended unchanged.
    What the code does when the query string itself holds a question mark:
    [req.url.split('?')[1]] is the piece up to that second mark only, so the
    rest of the query string is lost. (The first match in declaration
    order and the stripping of the prefix are as claimed: [resolve_spec].) *)
Theorem resolve_cuts_query_at_second_question_mark :
  let url := "/api/products/search?q=what?&page=2" in
  queryOf url = Some "q=what?&page=2" ∧
  resolve sampleConfig url = Some ("http://localhost:5003", "/search?q=what") ∧
  resolve sampleConfig url ≠ Some ("http://localhost:5003", "/search?q=what?&page=2").
Proof. vm_compute. split_and!; [done | done | discriminate]. Qed.

(** ** C8: requests within the quota *)

(** C8. A client that starts a window at [t1] (it has no window, or an
    expired one) and issues [n ≤ 10] requests inside that window, other
    clients being served in between, has every one of them allowed; the
    [k]-th is answered with [remaining = 10 - k], so the value goes down by
    one each time and is 0 at the tenth. *)
Theorem remaining_counts_down c t1 m evs :
  (∀ w, m !! c = Some w → t1 - windowStart w > windowMs) →
  Forall (λ ev, ev.2 - t1 ≤ windowMs) evs →
  let n := List.length (requestsOf c ((c, t1) :: evs)) in
  (n ≤ 10)%nat →
  decisionsOf c (rateRun m ((c, t1) :: evs)) =
    (λ k, Allowed 10 (10 - Z.of_nat k) (t1 + windowMs)) <$> seq 1 n ∧
  (n = 10%nat →
   last (decisionsOf c (rateRun m ((c, t1) :: evs))) =
     Some (Allowed 10 0 (t1 + windowMs))).
Proof.
  intros Hfresh Ht n Hn.
  assert (decisionsOf c (rateRun m ((c, t1) :: evs)) =
          (λ k, Allowed 10 (10 - Z.of_nat k) (t1 + windowMs)) <$> seq 1 n) as Heq.
  { subst n. unfold requestsOf in *. rewrite filter_cons_True in Hn |- * by done.
    simpl in Hn. simpl. rewrite rateLimiter_eq. cbv zeta.
    unfold decisionsOf. rewrite filter_cons_True by done.
    assert (currentWindow t1 m c = mkWindow 0 t1) as ->.
    { unfold currentWindow. destruct (m !! c) as [w|] eqn:Hm; [|done].
      by rewrite bool_decide_eq_true_2 by by apply Hfresh. }
    simpl. f_equal.
    apply (rateRun_within_window c t1 1); [by rewrite lookup_insert_eq | done |].
    unfold requestsOf. lia. }
  split; [done|]. intros Hn10. rewrite Heq, Hn10. reflexivity.
Qed.

Lemma remaining_counts_down_witness :
  decisionsOf "10.0.0.7"
    (rateRun ∅ [("10.0.0.7", 1000); ("10.0.0.8", 1500); ("10.0.0.7", 2000);
                ("10.0.0.7", 61000)])
  = [Allowed 10 9 61000; Allowed 10 8 61000; Allowed 10 7 61000].
Proof.
  apply (proj1 (remaining_counts_down "10.0.0.7" 1000 ∅
                  [("10.0.0.8", 1500); ("10.0.0.7", 2000); ("10.0.0.7", 61000)]
                  ltac:(intros w Hw; by rewrite lookup_empty in Hw)
                  ltac:(repeat constructor; by vm_compute)
                  ltac:(vm_compute; lia))).
Defined.

(** ** C9: credentials and cache entries *)

(** C9. Two requests for the same GET that present different credentials
    have different cache keys, and serving the first brings nothing into
    the cache that the second can be served: an entry that is a hit for
    the second after the first was handled was already stored under the
    second's own key before. Moreover at most one of the two credentials is
    the configured key: either the first request leaves the state as it
    is, or the second is answered 401 whatever the cache holds. *)
Theorem no_hit_across_credentials g st r1 r2 e1 k1 k2 now entry :
  method r1 = method r2 → originalUrl r1 = originalUrl r2 →
  apiKey r1 = Some k1 → apiKey r2 = Some k2 → k1 ≠ k2 →
  cacheKey r1 ≠ cacheKey r2 ∧
  (cacheLookup (cacheKey r2) now (cacheStore (handle g st r1 e1).1) = Some entry →
   cacheLookup (cacheKey r2) now (cacheStore st) = Some entry) ∧
  ((handle g st r1 e1).1 = st ∨
   ∀ st' e2, status (resp (handle g st' r2 e2).2) = 401).
Proof.
  intros Hm Hu H1 H2 Hne.
  assert (cacheKey r1 ≠ cacheKey r2) as Hkey
    by (intros Heq; by apply Hne, (cacheKey_credential r1 r2)).
  split_and!; [done | |].
  - destruct (handle_cache g st r1 e1) as [->|(code & d & ->)]; [done|].
    rewrite !cacheLookup_Some. intros [Hget Httl]. split; [|done].
    by eapply storeOnJson_get_other.
  - destruct (decide (k1 = validApiKey g)) as [->|Hk1].
    + right. intros st' e2.
      assert (authenticateApiKey g r2 ≠ AuthOk) as Ha
        by (rewrite authenticate_ok, H2; congruence).
      destruct (handle_unauthenticated g st' r2 e2 Ha) as (denied & Hd & ->).
      simpl. by eapply authResponse_status.
    + left.
      assert (authenticateApiKey g r1 ≠ AuthOk) as Ha
        by (rewrite authenticate_ok, H1; congruence).
      by destruct (handle_unauthenticated g st r1 e1 Ha) as (denied & Hd & ->).
Qed.

Lemma no_hit_across_credentials_witness :
  let r1 := getRequest "/gateway/stats" (Some "gateway-secret-key") in
  let r2 := getRequest "/gateway/stats" (Some "tenant-b") in
  cacheKey r1 ≠ cacheKey r2 ∧
  cacheLookup (cacheKey r2) 1001
    (cacheStore (handle sampleGateway initial r1 (sampleEnv 1000 Unavailable)).1) = None.
Proof.
  split; [|reflexivity].
  apply (proj1 (no_hit_across_credentials sampleGateway initial
                  (getRequest "/gateway/stats" (Some "gateway-secret-key"))
                  (getRequest "/gateway/stats" (Some "tenant-b"))
                  (sampleEnv 1000 Unavailable) "gateway-secret-key" "tenant-b" 1001
                  (mkEntry [] 0)
                  eq_refl eq_refl eq_refl eq_refl ltac:(discriminate))).
Defined.

(** ** C10: the management endpoints are cached *)

Lemma routeMatch_stats_not_health path :
  routeMatch "/gateway/stats" path = true → routeMatch "/health" path = false.
Proof.
  unfold routeMatch. intros [H|H]%orb_true_iff; apply bool_decide_eq_true in H;
    rewrite H; reflexivity.
Qed.


(** What a management endpoint answers on a cache miss. *)
Lemma dispatch_management g st r e :
  method r = "GET" →
  routeMatch "/gateway/stats" (pathname (originalUrl r)) = true ∨
  routeMatch "/health" (pathname (originalUrl r)) = true →
  dispatch g st r e =
    mkHandled 200 [] (JsonBody (managementBody g st e (pathname (originalUrl r)))) None.
Proof.
  intros Hm Hp. unfold dispatch, managementBody. rewrite Hm. simpl.
  destruct Hp as [Hs|Hh].
  - by rewrite (routeMatch_stats_not_health _ Hs), Hs.
  - by rewrite Hh.
Qed.



(** * Further properties of the code *)

(** ** rateLimiter *)

(** X1. A client without a window, or whose window has expired, is allowed:
    the request opens a window at [now], counts as its first request, and
    is answered with [remaining = 9] and a reset time one window ahead. *)
Theorem expired_window_starts_afresh (c : string) (now : Z) (m : RateLimitStore) :
  (∀ w, m !! c = Some w → now - windowStart w > windowMs) →
  (rateLimiter c now m).2 = Allowed 10 9 (now + windowMs) ∧
  (rateLimiter c now m).1 !! c = Some (mkWindow 1 now).
Proof.
  intros Hfresh. rewrite rateLimiter_eq. cbv zeta.
  assert (currentWindow now m c = mkWindow 0 now) as ->.
  { unfold currentWindow. destruct (m !! c) as [w|] eqn:Hm; [|done].
    by rewrite bool_decide_eq_true_2 by by apply Hfresh. }
  simpl. by rewrite lookup_insert_eq.
Qed.

Lemma expired_window_starts_afresh_witness :
  (rateLimiter "10.0.0.7" 70001 {["10.0.0.7" := mkWindow 11 10000]}).2
  = Allowed 10 9 130001.
Proof.
  apply (proj1 (expired_window_starts_afresh "10.0.0.7" 70001
                  {["10.0.0.7" := mkWindow 11 10000]}
                  ltac:(intros w [_ <-]%lookup_singleton_Some; by vm_compute))).
Defined.

(** X2. A request over the limit is counted all the same: inside a live
    window that already holds [max] requests or more, the request is denied,
    the stored count goes up by one and the start of the window stays. *)
Theorem denied_request_is_counted (c : string) (now : Z) (m : RateLimitStore)
    (w : ClientWindow) :
  m !! c = Some w → now - windowStart w ≤ windowMs → maxRequests ≤ count w →
  (rateLimiter c now m).2 =
    Denied (ceilDiv (windowMs - (now - windowStart w)) 1000) ∧
  (rateLimiter c now m).1 !! c = Some (mkWindow (count w + 1) (windowStart w)).
Proof.
  intros Hm Hlive Hmax. rewrite rateLimiter_eq. cbv zeta.
  unfold currentWindow. rewrite Hm.
  rewrite !(bool_decide_eq_false_2 (now - windowStart w > windowMs)) by lia.
  simpl. rewrite bool_decide_eq_true_2 by (unfold maxRequests in *; lia).
  by rewrite lookup_insert_eq.
Qed.

Lemma denied_request_is_counted_witness :
  (rateLimiter "10.0.0.7" 5000 {["10.0.0.7" := mkWindow 25 1000]}).1 !! "10.0.0.7"
  = Some (mkWindow 26 1000).
Proof.
  apply (proj2 (denied_request_is_counted "10.0.0.7" 5000
                  {["10.0.0.7" := mkWindow 25 1000]} (mkWindow 25 1000)
                  ltac:(by vm_compute) ltac:(by vm_compute) ltac:(by vm_compute))).
Defined.

(** X3. After a request the store holds no expired window: every window in
    it is live at the time of the request. The windows of the other clients
    are exactly those that were stored and are still live, unchanged. *)
Theorem store_holds_live_windows_only (c : string) (now : Z) (m : RateLimitStore) :
  (∀ k w, (rateLimiter c now m).1 !! k = Some w → now - windowStart w ≤ windowMs) ∧
  (∀ k w, k ≠ c →
     (rateLimiter c now m).1 !! k = Some w ↔
     m !! k = Some w ∧ now - windowStart w ≤ windowMs).
Proof.
  rewrite rateLimiter_eq. cbv zeta. simpl.
  assert (∀ k w, sweep now m !! k = Some w ↔
                 m !! k = Some w ∧ now - windowStart w ≤ windowMs) as Hsweep.
  { intros k w. unfold sweep. rewrite map_lookup_filter_Some. simpl.
    split; intros [? ?]; split; [done | lia | done | lia]. }
  split.
  - intros k w. destruct (decide (k = c)) as [->|Hne].
    + rewrite lookup_insert_eq. intros [= <-]. simpl. unfold currentWindow.
      destruct (m !! c) as [w0|]; [|simpl; unfold windowMs; lia].
      case_bool_decide; simpl; unfold windowMs in *; lia.
    + rewrite lookup_insert_ne by done. by intros [_ ?]%Hsweep.
  - intros k w Hne. rewrite lookup_insert_ne by done. apply Hsweep.
Qed.

(** Two stores that a client cannot tell apart from time [t] on: they hold
    the same window for it, or one holds none and the other an expired one. *)
Lemma rateLimiter_same_window c t m1 m2 :
  (m1 !! c = m2 !! c ∨
   (m1 !! c = None ∧ ∃ w, m2 !! c = Some w ∧ t - windowStart w > windowMs)) →
  currentWindow t m1 c = currentWindow t m2 c.
Proof.
  unfold currentWindow. intros [->|(-> & w & -> & Hx)]; [done|].
  by rewrite bool_decide_eq_true_2.
Qed.

Lemma rateRun_ignores_others c t m1 m2 evs :
  (m1 !! c = m2 !! c ∨
   (m1 !! c = None ∧ ∃ w, m2 !! c = Some w ∧ t - windowStart w > windowMs)) →
  nondecreasing t evs →
  decisionsOf c (rateRun m1 evs) = (rateRun m2 (requestsOf c evs)).*2.
Proof.
  revert t m1 m2. induction evs as [|[c' t'] evs IH]; intros t m1 m2 HR Hmono; [done|].
  destruct Hmono as [Htt' Hmono]. unfold requestsOf, decisionsOf in *. simpl.
  rewrite (rateLimiter_eq c' t' m1). cbv zeta.
  assert (m1 !! c = m2 !! c ∨
          (m1 !! c = None ∧ ∃ w, m2 !! c = Some w ∧ t' - windowStart w > windowMs))
    as HR' by (destruct HR as [?|(? & w & ? & ?)]; [by left | right; split; [done|];
               exists w; split; [done | lia]]).
  destruct (decide (c' = c)) as [->|Hne].
  - rewrite !filter_cons_True by done. simpl.
    rewrite (rateLimiter_eq c t' m2). cbv zeta.
    rewrite (rateLimiter_same_window c t' m1 m2 HR'). csimpl. f_equal.
    apply (IH t'); [|done]. left. by rewrite !lookup_insert_eq.
  - rewrite !filter_cons_False by done. apply (IH t'); [|done].
    rewrite lookup_insert_ne by done.
    destruct HR' as [Heq|(Hnone & w & Hw & Hx)].
    + destruct (m1 !! c) as [w|] eqn:Hm1.
      * destruct (decide (t' - windowStart w > windowMs)) as [Hx|Hx].
        -- right. split; [by eapply sweep_lookup_expired|]. exists w. by rewrite <- Heq.
        -- left. rewrite <- Heq. apply sweep_lookup_live; [done | lia].
      * left. rewrite <- Heq. by apply sweep_lookup_absent.
    + right. split; [by apply sweep_lookup_absent|]. by exists w.
Qed.

(** X4. With a clock that never goes back, the decisions a client gets do
    not depend on the requests of the other clients: they are the decisions
    it would get if its own requests were the only ones. *)
Theorem decisions_ignore_other_clients (c : string) (t0 : Z) (m : RateLimitStore)
    (evs : list (string * Z)) :
  nondecreasing t0 evs →
  decisionsOf c (rateRun m evs) = (rateRun m (requestsOf c evs)).*2.
Proof. intros Hmono. apply (rateRun_ignores_others c t0); [by left | done]. Qed.

Lemma decisions_ignore_other_clients_witness :
  decisionsOf "a" (rateRun ∅ [("a", 10); ("b", 20); ("a", 30); ("b", 70000); ("a", 70001)])
  = (rateRun ∅ [("a", 10); ("a", 30); ("a", 70001)]).*2.
Proof.
  apply (decisions_ignore_other_clients "a" 0 ∅
           [("a", 10); ("b", 20); ("a", 30); ("b", 70000); ("a", 70001)]).
  simpl. lia.
Defined.

(** ** The pipeline and the stores *)

Lemma cacheMiddleware_rateStore g st hs r e :
  rateLimitStore (cacheMiddleware g st hs r e).1 = rateLimitStore st.
Proof.
  unfold cacheMiddleware. case_bool_decide; [done|].
  by destruct (cacheLookup _ _ _).
Qed.

(** X5. Every request that passes authentication is counted by the rate
    limiter, whoever answers it afterwards: the rate-limit store after the
    request is the one [rateLimiter] leaves, also when the answer comes from
    the cache or is a 404. *)
Theorem authenticated_request_is_counted g st r e :
  authenticateApiKey g r = AuthOk →
  rateLimitStore (handle g st r e).1 =
    (rateLimiter (ip r) (now_rate e) (rateLimitStore st)).1.
Proof.
  intros Ha. rewrite handle_authenticated by done. cbv zeta.
  destruct (rateLimiter _ _ _).2; [done|].
  by rewrite cacheMiddleware_rateStore.
Qed.

Lemma authenticated_request_is_counted_witness :
  let r := getRequest "/health" (Some "gateway-secret-key") in
  let st1 := (handle sampleGateway initial r (sampleEnv 1000 Unavailable)).1 in
  rateLimitStore (handle sampleGateway st1 r (sampleEnv 2000 Unavailable)).1
  = (rateLimiter "127.0.0.1" 2000 (rateLimitStore st1)).1.
Proof.
  apply (authenticated_request_is_counted sampleGateway
           (handle sampleGateway initial
              (getRequest "/health" (Some "gateway-secret-key"))
              (sampleEnv 1000 Unavailable)).1
           (getRequest "/health" (Some "gateway-secret-key"))
           (sampleEnv 2000 Unavailable)).
  reflexivity.
Defined.

(** X6. A request whose method is not GET has nothing to do with the cache:
    when it is authenticated and allowed, its answer is the one the route
    handlers compute, and the cache is left as it is; nothing is purged. *)
Theorem other_methods_bypass_the_cache g st r e limit remaining resetAt :
  method r ≠ "GET" →
  authenticateApiKey g r = AuthOk →
  (rateLimiter (ip r) (now_rate e) (rateLimitStore st)).2 =
    Allowed limit remaining resetAt →
  let st1 := mkState (rateLimiter (ip r) (now_rate e) (rateLimitStore st)).1
                     (cacheStore st) in
  handle g st r e =
    (st1, respond (rateLimitHeaders limit remaining resetAt) (dispatch g st1 r e)).
Proof.
  intros Hm Ha Hrl. rewrite handle_authenticated by done. cbv zeta.
  rewrite Hrl. unfold cacheMiddleware. by rewrite bool_decide_eq_true_2.
Qed.

Lemma other_methods_bypass_the_cache_witness :
  let r := mkRequest "POST" "/gateway/stats" (Some "gateway-secret-key") "127.0.0.1" in
  let st := mkState ∅ [("POST:/gateway/stats:gateway-secret-key", mkEntry [] 0)] in
  status (resp (handle sampleGateway st r (sampleEnv 5 Unavailable)).2) = 404 ∧
  cacheStore (handle sampleGateway st r (sampleEnv 5 Unavailable)).1 = cacheStore st.
Proof.
  cbv zeta.
  rewrite (other_methods_bypass_the_cache sampleGateway
             (mkState ∅ [("POST:/gateway/stats:gateway-secret-key", mkEntry [] 0)])
             (mkRequest "POST" "/gateway/stats" (Some "gateway-secret-key") "127.0.0.1")
             (sampleEnv 5 Unavailable) 10 9 60005
             ltac:(discriminate) eq_refl ltac:(by vm_compute)).
  split; reflexivity.
Defined.

Lemma cacheMiddleware_store g st hs r e :
  cacheStore (cacheMiddleware g st hs r e).1 = cacheStore st ∨
  ∃ d, cacheStore (cacheMiddleware g st hs r e).1 =
       storeOnJson (cacheKey r) (status (resp (cacheMiddleware g st hs r e).2)) d
         (now_store e) (cacheStore st).
Proof.
  unfold cacheMiddleware. case_bool_decide; [by left|].
  destruct (cacheLookup _ _ _); simpl; [by left|].
  destruct (h_body _); [right; eauto | by left].
Qed.

(** X7. Only answers with status 200 enter the cache: a request answered
    with any other status (401, 429, 404, 502, or an upstream status) leaves
    the cache exactly as it was. *)
Theorem only_status_200_is_stored g st r e :
  status (resp (handle g st r e).2) ≠ 200 →
  cacheStore (handle g st r e).1 = cacheStore st.
Proof.
  destruct (decide (authenticateApiKey g r = AuthOk)) as [Ha|Ha].
  - rewrite handle_authenticated by done. cbv zeta.
    destruct (rateLimiter _ _ _).2 as [ra|l rem reset]; [done|].
    intros Hs.
    destruct (cacheMiddleware_store g
                (mkState (rateLimiter (ip r) (now_rate e) (rateLimitStore st)).1
                         (cacheStore st))
                (rateLimitHeaders l rem reset) r e) as [->|[d ->]]; [done|].
    by rewrite storeOnJson_other_status.
  - by destruct (handle_unauthenticated g st r e Ha) as (? & _ & ->).
Qed.

Lemma only_status_200_is_stored_witness :
  let r := getRequest "/nowhere" (Some "gateway-secret-key") in
  cacheStore (handle sampleGateway initial r (sampleEnv 5 Unavailable)).1 = [].
Proof.
  apply (only_status_200_is_stored sampleGateway initial
           (getRequest "/nowhere" (Some "gateway-secret-key"))
           (sampleEnv 5 Unavailable)).
  vm_compute. discriminate.
Defined.

(** X8. Whatever requests the gateway has served since its start, the cache
    holds each key once and never more than 100 entries. *)
Theorem cache_stays_within_bound g (reqs : list (request * env)) :
  NoDup ((cacheStore (run g initial reqs).1).*1) ∧
  (List.length (cacheStore (run g initial reqs).1) ≤ 100)%nat.
Proof. apply (reachable_cacheWf g). by exists reqs. Qed.

(** X9. What is stored with status 200 is what a lookup under the same key
    returns, body and store time, as long as less than 30 seconds have
    passed since the store, and no longer after that; this holds also when
    the store evicts, the new entry never being among the evicted. *)
Theorem store_then_lookup key d now now' (c : CacheStore) :
  cacheWf c →
  cacheLookup key now' (storeOnJson key 200 d now c) =
    if bool_decide (now' - now < cacheTtl) then Some (mkEntry d now) else None.
Proof.
  intros Hwf. unfold cacheLookup. by rewrite storeOnJson_get_same.
Qed.

Lemma store_then_lookup_witness :
  let c := storeAll (sampleStores (take 100 sampleKeys)) [] in
  cacheLookup "fresh" 29999 (storeOnJson "fresh" 200 [("n", JNum 1)] 0 c)
  = Some (mkEntry [("n", JNum 1)] 0).
Proof.
  apply (store_then_lookup "fresh" [("n", JNum 1)] 0 29999
           (storeAll (sampleStores (take 100 sampleKeys)) [])).
  split; [apply (bool_decide_unpack _); by vm_compute | vm_compute; lia].
Defined.

(** X10. A store under a key that is already in the cache replaces the
    entry where it stands: the keys and their order are as before (the entry
    does not become the youngest), nothing is evicted and the other entries
    are untouched. *)
Theorem overwrite_keeps_place key d now (c : CacheStore) :
  cacheWf c → key ∈ c.*1 →
  (storeOnJson key 200 d now c).*1 = c.*1 ∧
  ∀ k, k ≠ key → cacheGet k (storeOnJson key 200 d now c) = cacheGet k c.
Proof.
  intros Hwf Hin. rewrite storeOnJson_200 by done. cbv zeta.
  destruct Hwf as [_ Hlen].
  rewrite bool_decide_eq_false_2
    by (rewrite cacheSet_length, bool_decide_eq_true_2 by done; lia).
  split; [by apply cacheSet_present|].
  intros k Hk. by apply cacheGet_cacheSet_ne.
Qed.

Lemma overwrite_keeps_place_witness :
  let c := [("a", mkEntry [] 1); ("b", mkEntry [] 2); ("c", mkEntry [] 3)] in
  (storeOnJson "a" 200 [("n", JNum 1)] 9 c).*1 = ["a"; "b"; "c"].
Proof.
  apply (proj1 (overwrite_keeps_place "a" [("n", JNum 1)] 9
                  [("a", mkEntry [] 1); ("b", mkEntry [] 2); ("c", mkEntry [] 3)]
                  ltac:(split; [apply (bool_decide_unpack _); by vm_compute
                               | vm_compute; lia])
                  ltac:(apply (bool_decide_unpack _); by vm_compute))).
Defined.

Lemma getProp_setProp k k' v (o : obj) :
  getProp k (setProp k' v o) = if bool_decide (k' = k) then Some v else getProp k o.
Proof.
  induction o as [|[k0 v0] o IH]; simpl.
  - done.
  - destruct (decide (k0 = k')) as [->|Hne].
    + rewrite bool_decide_eq_true_2 by done. simpl. by case_bool_decide.
    + rewrite (bool_decide_eq_false_2 (k0 = k')) by done. simpl. rewrite IH.
      repeat case_bool_decide; congruence.
Qed.

(** X11. In the body served from the cache, [_cached] is [true] and
    [_cachedAt] is the store time, also when the stored body had properties
    of these names; every other property reads as in the stored body. *)
Theorem cached_marks_override (entry : CacheEntry) (k : string) :
  k ≠ "_cached" → k ≠ "_cachedAt" →
  getProp k (cachedBody entry) = getProp k (data entry) ∧
  getProp "_cached" (cachedBody entry) = Some (JBool true) ∧
  getProp "_cachedAt" (cachedBody entry) = Some (JDate (timestamp entry)).
Proof.
  intros H1 H2. unfold cachedBody. rewrite !getProp_setProp.
  rewrite (bool_decide_eq_false_2 ("_cachedAt" = k)) by congruence.
  rewrite (bool_decide_eq_false_2 ("_cached" = k)) by congruence.
  split_and!; reflexivity.
Qed.

Lemma cached_marks_override_witness :
  let entry := mkEntry [("_cached", JStr "no"); ("status", JStr "healthy")] 42 in
  getProp "status" (cachedBody entry) = Some (JStr "healthy") ∧
  getProp "_cached" (cachedBody entry) = Some (JBool true) ∧
  getProp "_cachedAt" (cachedBody entry) = Some (JDate 42).
Proof.
  apply (cached_marks_override
           (mkEntry [("_cached", JStr "no"); ("status", JStr "healthy")] 42) "status");
    discriminate.
Defined.

Lemma length_append (a b : string) :
  String.length (a +:+ b) = (String.length a + String.length b)%nat.
Proof. induction a as [|x a IH]; simpl; [done | by rewrite IH]. Qed.

Lemma append_inj_l (a b s : string) : a +:+ s = b +:+ s → a = b.
Proof.
  revert b. induction a as [|x a IH]; intros [|y b]; simpl; intros H.
  - done.
  - apply (f_equal String.length) in H.
    rewrite (length_append "" s), (length_append (String y b) s) in H.
    simpl in H. lia.
  - apply (f_equal String.length) in H.
    rewrite (length_append "" s), (length_append (String x a) s) in H.
    simpl in H. lia.
  - injection H as -> H. f_equal. by apply IH.
Qed.

(** X12. For one method and one credential the cache key determines the
    URL: two such requests share a cache entry only when path and query
    string are the same, character for character. *)
Theorem same_key_same_url (r1 r2 : request) :
  method r1 = method r2 → apiKey r1 = apiKey r2 →
  cacheKey r1 = cacheKey r2 → originalUrl r1 = originalUrl r2.
Proof.
  unfold cacheKey. intros -> -> H.
  apply (append_inj_r (method r2)) in H. injection H as H.
  by apply (append_inj_l _ _ (":" +:+ render (apiKey r2))).
Qed.

Lemma same_key_same_url_witness :
  cacheKey (getRequest "/health?a=1" (Some "k")) ≠
  cacheKey (getRequest "/health?a=2" (Some "k")).
Proof.
  intros H.
  pose proof (same_key_same_url (getRequest "/health?a=1" (Some "k"))
                (getRequest "/health?a=2" (Some "k")) eq_refl eq_refl H) as Hu.
  discriminate Hu.
Defined.

(** ** Route resolution and the handlers *)

(** X13. For a request target in origin form without white space, route
    resolution yields a target and an upstream path exactly when some
    configured prefix starts the path of the request (the URL up to its
    first [?] or [#]): the target is that of the first such prefix in
    declaration order, and the upstream path is the rest of the path after
    that prefix, ["/"] when nothing is left, followed, when the URL holds a
    [?], by [?] and the piece of the URL between its first and its second
    [?]. *)
Theorem route_resolution (config : Config) (url target upstreamPath : string) :
  plainUrl url = true →
  resolve config url = Some (target, upstreamPath) ↔
  ∃ route rest,
    firstMatch config (pathname url) route target ∧
    pathname url = route +:+ rest ∧
    upstreamPath =
      or_else rest "/" +:+
      match queryOf url with
      | Some q => "?" +:+ beforeQuestionMark q
      | None => ""
      end.
Proof.
  intros _. split.
  - intros H. unfold resolve in H.
    destruct (router config (pathname url)) as [t|] eqn:Hr; [|done].
    apply router_first_match in Hr as [route Hf].
    assert (∃ rest, pathname url = route +:+ rest) as [rest Hrest].
    { destruct Hf as (? & ? & _ & Hm & _). by apply startsWith_spec. }
    pose proof (resolve_spec _ _ _ _ _ Hrest Hf) as Hs.
    assert (router config (pathname url) = Some t) as Hr
      by (apply router_first_match; eauto).
    unfold resolve in Hs. rewrite Hr in Hs. simplify_eq. by exists route, rest.
  - intros (route & rest & Hf & Hrest & ->). by apply (resolve_spec _ _ route).
Qed.

Lemma route_resolution_witness :
  resolve sampleConfig "/api/users/a#b" = Some ("http://localhost:5001", "/a") ∧
  resolve sampleConfig "/api/orders?x=1#top" =
    Some ("http://localhost:5002", "/?x=1#top").
Proof.
  split.
  - apply (proj2 (route_resolution sampleConfig "/api/users/a#b"
                    "http://localhost:5001" "/a" eq_refl)).
    exists "/api/users", "/a". split; [|split; reflexivity].
    exists [], (List.tl sampleConfig). split; [reflexivity|].
    split; [reflexivity | constructor].
  - apply (proj2 (route_resolution sampleConfig "/api/orders?x=1#top"
                    "http://localhost:5002" "/?x=1#top" eq_refl)).
    exists "/api/orders", "". split; [|split; reflexivity].
    exists [("/api/users", "http://localhost:5001")], (List.tl (List.tl sampleConfig)).
    split; [reflexivity|]. split; [reflexivity|].
    constructor; [reflexivity | constructor].
Defined.








Lemma dispatch_unrouted g st r e :
  unrouted g r →
  dispatch g st r e = mkHandled 404 [] (JsonBody (notFoundBody g r e)) None.
Proof.
  intros (Hh & Hs & Hm). unfold dispatch. rewrite Hh, Hs, Hm.
  by rewrite !andb_false_r.
Qed.


(** What [cacheMiddleware] does when the cache has no live entry for the
    request or the method is not GET, and the handler's answer is not a 200
    JSON answer: the answer goes out and the state stays. *)
Lemma cacheMiddleware_pass g st hs r e :
  method r ≠ "GET" ∨ cacheLookup (cacheKey r) (now_lookup e) (cacheStore st) = None →
  (∀ d, h_body (dispatch g st r e) = JsonBody d → h_status (dispatch g st r e) ≠ 200) →
  cacheMiddleware g st hs r e = (st, respond hs (dispatch g st r e)).
Proof.
  intros Hmiss Hnot200. unfold cacheMiddleware.
  case_bool_decide as Hget; [done|].
  destruct Hmiss as [Hm | ->]; [done|].
  destruct st as [rl c]. simpl. f_equal. f_equal.
  destruct (h_body _) as [d|raw] eqn:Hb; [|done].
  apply storeOnJson_other_status. by eapply Hnot200.
Qed.

(** X15. With literal configured prefixes and a request target in origin
    form without white space, a request for which no route is configured is
    answered 404 by the last handler: the body names the URL asked for and
    lists the configured prefixes in their order of declaration; no
    upstream is called and the cache is left as it is. *)
Theorem unrouted_request_gets_404 g st r e limit remaining resetAt :
  literalRoutes (config g) = true →
  plainUrl (originalUrl r) = true →
  authenticateApiKey g r = AuthOk →
  (rateLimiter (ip r) (now_rate e) (rateLimitStore st)).2 =
    Allowed limit remaining resetAt →
  unrouted g r →
  method r ≠ "GET" ∨ cacheLookup (cacheKey r) (now_lookup e) (cacheStore st) = None →
  handle g st r e =
    (mkState (rateLimiter (ip r) (now_rate e) (rateLimitStore st)).1 (cacheStore st),
     mkOutcome
       (mkResponse 404 (rateLimitHeaders limit remaining resetAt)
          (JsonBody (notFoundBody g r e)))
       None) ∧
  getProp "availableRoutes" (notFoundBody g r e) = Some (JArr (JStr <$> (config g).*1)) ∧
  getProp "message" (notFoundBody g r e) =
    Some (JStr ("No proxy configuration found for " +:+ originalUrl r)).
Proof.
  intros _ _ Ha Hrl Hun Hmiss. split; [|split; [|done]].
  - rewrite handle_authenticated by done. cbv zeta. rewrite Hrl.
    rewrite cacheMiddleware_pass; [|done|].
    + rewrite dispatch_unrouted by done. unfold respond. simpl. reflexivity.
    + rewrite dispatch_unrouted by done. simpl. done.
  - simpl. do 2 f_equal. by rewrite <- list_fmap_compose.
Qed.

Lemma unrouted_request_gets_404_witness :
  status (resp (handle sampleGateway initial
                  (getRequest "/api/usersx#top" (Some "gateway-secret-key"))
                  (sampleEnv 5 Unavailable)).2) = 404.
Proof.
  rewrite (proj1 (unrouted_request_gets_404 sampleGateway initial
                    (getRequest "/api/usersx#top" (Some "gateway-secret-key"))
                    (sampleEnv 5 Unavailable) 10 9 60005
                    eq_refl eq_refl eq_refl ltac:(by vm_compute)
                    ltac:(by vm_compute) ltac:(right; by vm_compute))).
  reflexivity.
Defined.

Lemma dispatch_upstream g st r e target p :
  h_upstream (dispatch g st r e) = Some (target, p) →
  router (config g) (pathname (originalUrl r)) = Some target ∧
  p = onProxyReq (config g) (originalUrl r).
Proof.
  unfold dispatch.
  destruct (handlesGet (method r) && routeMatch "/health" _); [done|].
  destruct (handlesGet (method r) && routeMatch "/gateway/stats" _); [done|].
  destruct (existsb _ _); [|done].
  unfold proxy. destruct (router _ _) as [t|]; [|done].
  destruct (reply e); simpl; by intros [= <- <-].
Qed.

Lemma upstream_call_inv g st r e target p :
  upstream (handle g st r e).2 = Some (target, p) →
  authenticateApiKey g r = AuthOk ∧
  (∃ limit remaining resetAt,
     (rateLimiter (ip r) (now_rate e) (rateLimitStore st)).2 =
       Allowed limit remaining resetAt) ∧
  router (config g) (pathname (originalUrl r)) = Some target ∧
  p = onProxyReq (config g) (originalUrl r).
Proof.
  destruct (decide (authenticateApiKey g r = AuthOk)) as [Ha|Ha].
  - rewrite handle_authenticated by done. cbv zeta.
    destruct (rateLimiter _ _ _).2 as [ra|l rem reset] eqn:Hrl; [done|].
    intros Hup. split; [done|]. split; [by eauto|].
    revert Hup. unfold cacheMiddleware. case_bool_decide.
    + simpl. apply dispatch_upstream.
    + destruct (cacheLookup _ _ _); simpl; [done|]. apply dispatch_upstream.
  - by destruct (handle_unauthenticated g st r e Ha) as (? & _ & ->).
Qed.

(** X16. The gateway calls an upstream only for a request that the body
    parser let through, that presented the configured key, that the rate
    limiter allowed and that the cache did not answer: a request rejected by
    the body parser, by authentication or by the rate limiter, or served
    from the cache, never reaches a backend. *)
Theorem forwarded_only_when_let_through g st r e bodyError call :
  upstream (serve g st r e bodyError).2 = Some call →
  bodyError = None ∧
  apiKey r = Some (validApiKey g) ∧
  (∃ limit remaining resetAt,
     (rateLimiter (ip r) (now_rate e) (rateLimitStore st)).2 =
       Allowed limit remaining resetAt) ∧
  (method r ≠ "GET" ∨
   cacheLookup (cacheKey r) (now_lookup e) (cacheStore st) = None).
Proof.
  destruct bodyError as [err|]; [done|]. simpl. destruct call as [target p].
  intros Hup. destruct (upstream_call_inv _ _ _ _ _ _ Hup) as (Ha & Hrl & _).
  split; [done|]. split; [by apply authenticate_ok|]. split; [done|].
  revert Hup. rewrite handle_authenticated by done. cbv zeta.
  destruct Hrl as (l & rem & reset & ->). unfold cacheMiddleware.
  case_bool_decide as Hm; [by left|]. simpl.
  destruct (cacheLookup _ _ _); [done | by right].
Qed.

Lemma forwarded_only_when_let_through_witness :
  let r := getRequest "/api/orders/7?x=1" (Some "gateway-secret-key") in
  apiKey r = Some "gateway-secret-key" ∧
  cacheLookup (cacheKey r) 5 [] = None.
Proof.
  destruct (forwarded_only_when_let_through sampleGateway initial
              (getRequest "/api/orders/7?x=1" (Some "gateway-secret-key"))
              (sampleEnv 5 (Relayed 200 "{}")) None
              ("http://localhost:5002", "/7?x=1") eq_refl)
    as (_ & Hk & _ & [Hm | Hmiss]).
  - exfalso. by apply Hm.
  - split; [exact Hk | exact Hmiss].
Defined.

(** X17. Every upstream call carries the headers [x-forwarded-by] and
    [x-forwarded-for], and, the request having passed authentication, the
    gateway's own API key in [x-forwarded-api-key]: each backend is given
    the secret that protects the gateway. *)
Theorem forwarded_request_carries_the_key g st r e call :
  upstream (handle g st r e).2 = Some call →
  forwardHeaders r =
    [("x-forwarded-api-key", validApiKey g);
     ("x-forwarded-by", "mini-api-gateway");
     ("x-forwarded-for", ip r)].
Proof.
  destruct call as [target p]. intros Hup.
  destruct (upstream_call_inv _ _ _ _ _ _ Hup) as (Ha & _).
  apply authenticate_ok in Ha. unfold forwardHeaders. rewrite Ha.
  pose proof (validApiKey_nonempty g) as Hne.
  by destruct (validApiKey g).
Qed.

Lemma forwarded_request_carries_the_key_witness :
  forwardHeaders (getRequest "/api/orders/7" (Some "gateway-secret-key")) =
    [("x-forwarded-api-key", "gateway-secret-key");
     ("x-forwarded-by", "mini-api-gateway");
     ("x-forwarded-for", "127.0.0.1")].
Proof.
  apply (forwarded_request_carries_the_key sampleGateway initial
           (getRequest "/api/orders/7" (Some "gateway-secret-key"))
           (sampleEnv 5 (Relayed 200 "{}")) ("http://localhost:5002", "/7")).
  reflexivity.
Defined.





(** X20. The statistics endpoint, when it computes its answer, counts the
    client that asks: [activeConnections] is at least 1, because the rate
    limiter has recorded the request before the handler runs; [cacheSize]
    is the size of the cache before this answer is stored, at most 100. *)
Theorem stats_count_the_requester g (reqs : list (request * env)) r e :
  authenticateApiKey g r = AuthOk →
  method r = "GET" →
  routeMatch "/gateway/stats" (pathname (originalUrl r)) = true →
  cacheLookup (cacheKey r) (now_lookup e) (cacheStore (run g initial reqs).1) = None →
  status (resp (handle g (run g initial reqs).1 r e).2) ≠ 429 →
  ∃ stats n k,
    body (resp (handle g (run g initial reqs).1 r e).2) = JsonBody stats ∧
    getProp "activeConnections" stats = Some (JNum n) ∧ 1 ≤ n ∧
    getProp "cacheSize" stats = Some (JNum k) ∧
    k = Z.of_nat (List.length (cacheStore (run g initial reqs).1)) ∧ 0 ≤ k ≤ 100.
Proof.
  intros Ha Hm Hp Hmiss. set (st := (run g initial reqs).1) in *.
  assert (cacheWf (cacheStore st)) as [_ Hlen]
    by (apply (reachable_cacheWf g); by exists reqs).
  rewrite handle_authenticated by done. cbv zeta.
  destruct (rateLimiter _ _ _).2 as [ra|l rem reset] eqn:Hrl; [done|]. intros _.
  unfold cacheMiddleware. get_branch. simpl. rewrite Hmiss.
  rewrite dispatch_management by (by try left). simpl.
  unfold managementBody. rewrite (routeMatch_stats_not_health _ Hp).
  eexists _, _, _. split; [reflexivity|]. simpl.
  split; [reflexivity|]. split.
  - rewrite rateLimiter_eq. cbv zeta. simpl.
    match goal with |- 1 ≤ Z.of_nat (size ?m) =>
      assert (size m ≠ 0%nat) by (apply map_size_non_empty_iff, insert_non_empty)
    end. lia.
  - split; [reflexivity|]. split; [reflexivity|]. unfold cacheMax in Hlen. lia.
Qed.

Lemma stats_count_the_requester_witness :
  ∃ stats,
    body (resp (handle sampleGateway initial
                  (getRequest "/gateway/stats" (Some "gateway-secret-key"))
                  (sampleEnv 5 Unavailable)).2) = JsonBody stats ∧
    getProp "activeConnections" stats = Some (JNum 1).
Proof.
  destruct (stats_count_the_requester sampleGateway []
              (getRequest "/gateway/stats" (Some "gateway-secret-key"))
              (sampleEnv 5 Unavailable) eq_refl eq_refl eq_refl eq_refl
              ltac:(vm_compute; discriminate))
    as (stats & n & k & Hb & _).
  exists stats. split; [exact Hb|].
  vm_compute in Hb. injection Hb as <-. reflexivity.
Defined.

(** ** authenticateApiKey *)

(** X21. The three outcomes of authentication: the request passes exactly
    when it presents the configured key; it is told that the key is missing
    exactly when the header is absent or empty; and that the key is invalid
    for every other value. The configured key is never empty: it is
    ["gateway-secret-key"] when [API_KEY] is unset or empty, so an empty
    header never passes. *)
Theorem authentication_outcomes g r :
  (authenticateApiKey g r = AuthOk ↔ apiKey r = Some (validApiKey g)) ∧
  (authenticateApiKey g r = AuthMissing ↔ apiKey r = None ∨ apiKey r = Some "") ∧
  (authenticateApiKey g r = AuthInvalid ↔
     ∃ k, apiKey r = Some k ∧ k ≠ "" ∧ k ≠ validApiKey g) ∧
  validApiKey g ≠ "" ∧
  validApiKey g =
    match API_KEY g with
    | Some (String a k) => String a k
    | _ => "gateway-secret-key"
    end.
Proof.
  split; [apply authenticate_ok|].
  pose proof (validApiKey_nonempty g) as Hv.
  split_and!; [| |done|by unfold validApiKey; destruct (API_KEY g) as [[|]|]].
  - unfold authenticateApiKey. destruct (apiKey r) as [[|a k]|].
    + split; [by right | done].
    + case_bool_decide; (split; [done | by intros [|]]).
    + split; [by left | done].
  - unfold authenticateApiKey. destruct (apiKey r) as [[|a k]|].
    + split; [done | by intros (k & [= <-] & ? & _)].
    + case_bool_decide as Hk.
      * split; [|done]. intros _. by exists (String a k).
      * split; [done|]. intros (k' & [= <-] & _ & Hne). by destruct Hk.
    + split; [done | by intros (k & ? & _)].
Qed.

(** ** The error-handling middleware *)

(** X22. The error handler answers nothing once the headers are sent.
    Otherwise its answer never has status 0 and never an empty message: the
    status is 500 when the error carries no status (or 0) in either field,
    the message is ['Internal Server Error'] when the error has none, and
    the body repeats the URL and the method of the request. *)
Theorem error_answer (err : jsError) r e :
  errorHandler true err r e = None ∧
  ∃ code fields message,
    errorHandler false err r e = Some (mkResponse code [] (JsonBody fields)) ∧
    code ≠ 0 ∧
    (numOr (err_statusCode err) 0 = 0 → numOr (err_status err) 0 = 0 → code = 500) ∧
    getProp "error" fields = Some (JStr message) ∧ message ≠ "" ∧
    getProp "path" fields = Some (JStr (originalUrl r)) ∧
    getProp "method" fields = Some (JStr (method r)).
Proof.
  split; [done|]. unfold errorHandler. eexists _, _, _.
  split; [reflexivity|]. split_and!.
  - unfold numOr. destruct (err_statusCode err) as [n|], (err_status err) as [k|];
      repeat case_bool_decide; done.
  - unfold numOr. destruct (err_statusCode err) as [n|], (err_status err) as [k|];
      repeat case_bool_decide; done.
  - reflexivity.
  - by destruct (err_message err) as [[|]|].
  - reflexivity.
  - reflexivity.
Qed.

(** ** The mock backends *)

Section Users.

Implicit Types (us : list user) (u : user).

Lemma find_app_Some {A} (f : A → bool) (l1 l2 : list A) x :
  List.find f l1 = Some x → List.find f (l1 ++ l2) = Some x.
Proof.
  induction l1 as [|a l1 IH]; simpl; [done|]. by destruct (f a).
Qed.

Lemma findUser_outside s us i :
  idsFrom s us → i < Z.of_nat s ∨ Z.of_nat (s + List.length us) ≤ i →
  findUser us (Some i) = None.
Proof.
  unfold idsFrom. revert s. induction us as [|u us IH]; intros s Hids Hout; [done|].
  simpl in *. injection Hids as Hid Hids.
  rewrite bool_decide_eq_false_2 by lia. apply (IH (S s)); [done | lia].
Qed.

Lemma findUser_at s us (k : nat) u :
  idsFrom s us → us !! k = Some u → findUser us (Some (Z.of_nat (s + k))) = Some u.
Proof.
  unfold idsFrom. revert s k. induction us as [|u0 us IH]; intros s k Hids Hk; [done|].
  simpl in *. injection Hids as Hid Hids. destruct k as [|k]; simpl in *.
  - simplify_eq. rewrite bool_decide_eq_true_2; [done | lia].
  - rewrite bool_decide_eq_false_2 by lia.
    replace (s + S k)%nat with (S s + k)%nat by lia. by apply (IH (S s)).
Qed.

Lemma usersPost_wf us name email : usersWf us → usersWf (usersPost us name email).1.
Proof.
  unfold usersWf, idsFrom. intros Hwf. simpl.
  rewrite fmap_app, length_app, Hwf. simpl.
  rewrite Nat.add_1_r, seq_S, fmap_app. simpl. do 3 f_equal. lia.
Qed.

Lemma usersAfter_wf us bodies : usersWf us → usersWf (usersAfter us bodies).
Proof.
  revert us. induction bodies as [|b bodies IH]; intros us Hwf; [done|].
  apply IH. by apply usersPost_wf.
Qed.

Lemma initialUsers_wf : usersWf initialUsers.
Proof. reflexivity. Qed.

End Users.

(** X23. In the users service a created user can be read back: after any
    sequence of POSTs, a further POST answers 201 with a user whose id is
    the number of users so far plus one, and a GET of that id then answers
    200 with that very user; the users that were there before are still
    found under their ids. *)
Theorem created_user_is_found (bodies : list (option json * option json))
    (name email : option json) :
  let us := usersAfter initialUsers bodies in
  let created := (usersPost us name email).2.2 in
  let us' := (usersPost us name email).1 in
  (usersPost us name email).2.1 = 201 ∧
  created = mkUser (Z.of_nat (List.length us) + 1) name email ∧
  usersGetById us' (Some (user_id created)) = (200, Some created) ∧
  ∀ i u, usersGetById us (Some i) = (200, Some u) →
         usersGetById us' (Some i) = (200, Some u).
Proof.
  intros us created us'.
  assert (usersWf us) as Hwf by apply usersAfter_wf, initialUsers_wf.
  assert (usersWf us') as Hwf' by by apply usersPost_wf.
  split; [done|]. split; [done|]. split.
  - unfold usersGetById.
    assert (findUser us' (Some (user_id created)) = Some created) as ->; [|done].
    replace (user_id created) with (Z.of_nat (1 + List.length us)) by (simpl; lia).
    apply (findUser_at 1); [done|].
    subst us'. simpl. by rewrite lookup_app_r, Nat.sub_diag.
  - intros i u. unfold usersGetById.
    destruct (findUser us (Some i)) as [u0|] eqn:Hf; [|done].
    intros [= <-]. subst us'. simpl in *.
    by rewrite (find_app_Some _ _ _ _ Hf).
Qed.

(** X24. In the users service a GET by id answers 200 exactly for the ids
    from 1 to the number of users, whatever was posted before; for any other
    number, and for a parameter that is not a number, it answers 404. *)
Theorem user_found_iff_id_in_range (bodies : list (option json * option json))
    (n : option Z) :
  let us := usersAfter initialUsers bodies in
  ((usersGetById us n).1 = 200 ↔
   ∃ i, n = Some i ∧ 1 ≤ i ≤ Z.of_nat (List.length us)) ∧
  ((usersGetById us n).1 ≠ 200 → usersGetById us n = (404, None)).
Proof.
  intros us.
  assert (usersWf us) as Hwf by apply usersAfter_wf, initialUsers_wf.
  split.
  - destruct n as [i|]; [|split; [done | by intros (? & ? & _)]].
    destruct (decide (1 ≤ i ≤ Z.of_nat (List.length us))) as [Hin|Hout].
    + split; [by eauto|]. intros _.
      destruct (lookup_lt_is_Some_2 us (Z.to_nat (i - 1))) as [u Hu]; [lia|].
      unfold usersGetById.
      replace i with (Z.of_nat (1 + Z.to_nat (i - 1))) by lia.
      by rewrite (findUser_at 1 us _ u Hwf Hu).
    + unfold usersGetById. rewrite (findUser_outside 1 us i Hwf) by lia.
      split; [done|]. intros (? & [= <-] & ?). lia.
  - unfold usersGetById. by destruct (findUser us n).
Qed.

(** X25. In the auth service a login succeeds for the user [admin] with the
    password [secret] and for nothing else; the token it then issues,
    presented as a bearer token, is accepted by the verification. *)
Theorem issued_token_verifies (username password : option json) (stamp token : string) :
  authLogin username password stamp = (200, Some token) →
  username = Some (JStr "admin") ∧ password = Some (JStr "secret") ∧
  token = "mock-jwt-token-" +:+ stamp ∧
  authVerify (Some ("Bearer " +:+ token)) = 200.
Proof.
  unfold authLogin.
  destruct (isString username "admin") eqn:Hu; [|done].
  destruct (isString password "secret") eqn:Hp; [|done].
  simpl. intros [= <-].
  assert (∀ v lit, isString v lit = true → v = Some (JStr lit)) as Hs.
  { intros [[]|] lit; simpl; try done. by intros ->%bool_decide_eq_true. }
  split_and!; [by apply Hs | by apply Hs | done |].
  by vm_compute.
Qed.

Lemma issued_token_verifies_witness :
  authVerify (Some "Bearer mock-jwt-token-1700000000000") = 200.
Proof.
  apply (issued_token_verifies (Some (JStr "admin")) (Some (JStr "secret"))
           "1700000000000" "mock-jwt-token-1700000000000").
  reflexivity.
Defined.

(** X26. The verification of the auth service accepts exactly the headers
    that begin with [Bearer mock-jwt-token]: what follows plays no part, so
    tokens that no login issued are accepted as well, and a missing header
    is refused. *)
Theorem verification_checks_the_prefix_only (authorization : option string) :
  (authVerify authorization = 200 ↔
   ∃ rest, authorization = Some ("Bearer mock-jwt-token" +:+ rest)) ∧
  (authVerify authorization ≠ 200 → authVerify authorization = 401).
Proof.
  unfold authVerify. destruct authorization as [token|].
  - destruct (startsWith token "Bearer mock-jwt-token") eqn:Hs.
    + split; [|done]. split; [|done]. intros _.
      apply startsWith_spec in Hs as [rest ->]. by exists rest.
    + split; [|done]. split; [done|]. intros [rest [= ->]].
      by rewrite startsWith_app in Hs.
  - split; [|done]. split; [done | by intros [? ?]].
Qed.

(** ** rateLimiter over a whole window *)

Lemma rateRun_in_window c t1 (k : nat) (m : RateLimitStore) evs :
  m !! c = Some (mkWindow (Z.of_nat k) t1) →
  Forall (λ ev, ev.2 - t1 ≤ windowMs) evs →
  decisionsOf c (rateRun m evs) =
    imap (λ j ev, decisionAt t1 (k + S j) ev.2) (requestsOf c evs).
Proof.
  revert m k. induction evs as [|[c' now] evs IH]; intros m k Hm Ht; [done|].
  inversion Ht as [|?? Hnow Ht']; simplify_eq/=.
  unfold requestsOf, decisionsOf in *. rewrite rateLimiter_eq. cbv zeta.
  destruct (decide (c' = c)) as [->|Hne].
  - rewrite !filter_cons_True by done. csimpl. f_equal.
    + unfold currentWindow. rewrite Hm.
      rewrite !(bool_decide_eq_false_2 (now - t1 > windowMs)) by lia.
      unfold decisionAt, maxRequests. simpl.
      repeat case_bool_decide; try lia; [done|]. do 2 f_equal. lia.
    + rewrite (IH _ (S k)); [|by rewrite lookup_insert_eq; unfold currentWindow;
        rewrite Hm, !(bool_decide_eq_false_2 (now - t1 > windowMs)) by lia;
        simpl; do 2 f_equal; lia|done].
      apply imap_ext. intros j ev _. simpl. f_equal. lia.
  - rewrite !filter_cons_False by done. apply IH; [|done].
    rewrite lookup_insert_ne by done. apply sweep_lookup_live; [done | simpl; lia].
Qed.

(** X27. Within one window a client gets ten requests through and no more:
    for a client that starts a window at [t1], the [k]-th of its requests
    inside that window is allowed with [10 - k] remaining when [k ≤ 10] and
    denied when [k > 10], with the seconds left in the window as the retry
    delay, whatever the other clients do in between. *)
Theorem ten_requests_per_window (c : string) (t1 : Z) (m : RateLimitStore)
    (evs : list (string * Z)) :
  (∀ w, m !! c = Some w → t1 - windowStart w > windowMs) →
  Forall (λ ev, ev.2 - t1 ≤ windowMs) evs →
  decisionsOf c (rateRun m ((c, t1) :: evs)) =
    imap (λ j ev, decisionAt t1 (S j) ev.2) (requestsOf c ((c, t1) :: evs)).
Proof.
  intros Hfresh Ht. unfold requestsOf, decisionsOf. simpl.
  rewrite rateLimiter_eq. cbv zeta. rewrite !filter_cons_True by done. csimpl.
  assert (currentWindow t1 m c = mkWindow 0 t1) as ->.
  { unfold currentWindow. destruct (m !! c) as [w|] eqn:Hm; [|done].
    by rewrite bool_decide_eq_true_2 by by apply Hfresh. }
  simpl. f_equal.
  pose proof (rateRun_in_window c t1 1 (<[c:=mkWindow 1 t1]> (sweep t1 m)) evs
                ltac:(by rewrite lookup_insert_eq) Ht) as H.
  unfold requestsOf, decisionsOf in H.
  change (0 + 1) with 1. rewrite H. by apply imap_ext.
Qed.

Lemma ten_requests_per_window_witness :
  decisionsOf "a" (rateRun ∅ (replicate 12 ("a", 1500)))
  = [Allowed 10 9 61500; Allowed 10 8 61500; Allowed 10 7 61500; Allowed 10 6 61500;
     Allowed 10 5 61500; Allowed 10 4 61500; Allowed 10 3 61500; Allowed 10 2 61500;
     Allowed 10 1 61500; Allowed 10 0 61500; Denied 60; Denied 60].
Proof.
  apply (ten_requests_per_window "a" 1500 ∅ (replicate 11 ("a", 1500))
           ltac:(intros w Hw; by rewrite lookup_empty in Hw)
           ltac:(repeat constructor; by vm_compute)).
Defined.
